(** * graph-ui-library: the layout and interaction engine of [Graph]

    A shallow embedding of [src/components/graph/GraphEdges.tsx] (the
    [GraphEdges] component and the [Graph] component that follows it in the
    same file) and of the display-name rule of
    [src/components/graph-node/GraphNode.tsx].

    Conventions of the embedding.
    - A JavaScript [number] is modelled as a real number ([R]): arithmetic is
      exact, there is no rounding, no NaN and no infinity.  [Math.min],
      [Math.max], [Math.cos], [Math.sin] and [Math.PI] are [Rmin], [Rmax],
      [cos], [sin] and [PI].  A statement that equates two computed numbers
      is therefore a statement about exact arithmetic; [Double] repeats the
      wheel zoom with binary64 values and shows how far the doubles of the
      code can be from it.
    - [Record<string, {x, y}>] is a finite map [gmap string Pos.t] that holds
      the entries of the object itself.  The definitions outside [Proto]
      read [nodePositions[key]] as a lookup in that map, which is what the
      code does for every key that is not the name of a member of
      [Object.prototype]; [Proto] has the same functions with the inherited
      members taken into account, and the lemmas on [Proto] say where the
      two agree.
    - A JavaScript [Set<string>] is an insertion-ordered list without
      duplicates ([JSSet.t]); [Array.from] and the spread of a set enumerate
      it in insertion order.
    - React state is a record ([GraphState]); every handler and effect is a
      function from the state before to the state after.  Notifications to
      the host ([dispatchEvent], [postMessage], [localStorage], [console])
      and the timer that clears [expandingNode] are not part of the state
      and are left out. *)

From Stdlib Require Import Reals Lra.
From Stdlib Require Floats.
From stdpp Require Import base option list gmap strings.

#[local] Set Warnings "-inexact-float".

(** ** Numbers *)

#[global] Instance R_eq_dec : EqDecision R := Req_dec_T.

(** [a === 0] and [a !== 0] on numbers. *)
Definition is_zero (a : R) : bool := bool_decide (a = 0%R).
Definition non_zero (a : R) : bool := negb (is_zero a).

Module Pos.
(** [{ x: number; y: number }] *)
Record t : Type := mk { x : R; y : R }.

(** The origin, which the component reads as "not placed yet". *)
Definition origin : t := mk 0 0.

(** [p.x === 0 && p.y === 0] *)
Definition at_origin (p : t) : bool := is_zero (x p) && is_zero (y p).

End Pos.

(** ** JavaScript [Set<string>] *)

Module JSSet.
Definition t : Type := list string.

(** [new Set()] *)
Definition empty : t := [].

(** [s.has(k)] *)
Definition has (s : t) (k : string) : bool := bool_decide (k ∈ s).

(** [s.add(k)]: a new key goes to the end, a known key changes nothing. *)
Definition add (k : string) (s : t) : t :=
  if has s k then s else s ++ [k].

(** [new Set(l)]: the elements of [l] are added from left to right. *)
Definition of_list (l : list string) : t :=
  foldl (λ s k, add k s) empty l.

(** [s.size] *)
Definition size (s : t) : nat := length s.

(** [Array.from(s)] and [...s] *)
Definition to_array (s : t) : list string := s.
End JSSet.

(** ** The graph document ([types/graph]) *)

(** An entry of [metadata.imports]: a string, or an object with an optional
    [name] and an optional [path]. *)
Inductive Import : Type :=
  | ImportString (s : string)
  | ImportObject (name path : option string).

Module Metadata.
(** The fields of [node.metadata] that the component reads. *)
Record t : Type := mk {
  outgoingDependencies : option (list string);
  imports : option (list Import);
  fullName : option string;
  filePath : option string;
  path : option string
}.
End Metadata.

Module Node.
(** The fields of a node that the component reads.  The declaration of the
    type lives in [types/graph]; an optional field that is absent is
    [None]. *)
Record t : Type := mk {
  id : string;
  name : option string;
  title : option string;
  type : option string;
  filepath : option string;
  metadata : option Metadata.t
}.
End Node.

Module Edge.
Record t : Type := mk {
  source : string;
  target : string;
  type : option string
}.

(** The key of an edge in a highlight set: [`${edge.source}-${edge.target}`]. *)
Definition key (e : t) : string := source e +:+ "-" +:+ target e.
End Edge.

Module GraphData.
Record t : Type := mk {
  nodes : list Node.t;
  edges : list Edge.t
}.

(** The value [processedData] takes when the input is not well formed. *)
Definition empty : t := mk [] [].
End GraphData.

(** ** [GraphEdges]: the edges that are drawn *)

Section GraphEdges.
Variable nodePositions : gmap string Pos.t.

(** The predicate of the [edges.filter] call: both endpoints have an entry
    and none of the four coordinates is [0].  ([Proto.edgeIsValid] is the
    predicate for endpoints that may bear the name of an inherited
    member.) *)
Definition edgeIsValid (edge : Edge.t) : bool :=
  match nodePositions !! Edge.source edge, nodePositions !! Edge.target edge with
  | Some sourcePos, Some targetPos =>
      non_zero (Pos.x sourcePos) && non_zero (Pos.y sourcePos) &&
      non_zero (Pos.x targetPos) && non_zero (Pos.y targetPos)
  | _, _ => false
  end.

Definition validEdges (edges : list Edge.t) : list Edge.t :=
  List.filter edgeIsValid edges.

(** The safeguard inside [validEdges.map]: [true] when the callback
    returns [null] instead of a line. *)
Definition edgeIsSkipped (edge : Edge.t) : bool :=
  match nodePositions !! Edge.source edge, nodePositions !! Edge.target edge with
  | Some sourcePos, Some targetPos =>
      Pos.at_origin sourcePos || Pos.at_origin targetPos
  | _, _ => true
  end.

(** The edges for which the component emits a line: nothing at all when
    [validEdges] is empty, and otherwise the valid edges that pass the
    safeguard. *)
Definition renderedEdges (edges : list Edge.t) : list Edge.t :=
  match validEdges edges with
  | [] => []
  | valid => List.filter (λ edge, negb (edgeIsSkipped edge)) valid
  end.

(** The guard of the node loop of [Graph]: a node is drawn unless its
    position, or the origin when it has none, has both coordinates [0]. *)
Definition nodeIsRendered (node : Node.t) : bool :=
  let position := default Pos.origin (nodePositions !! Node.id node) in
  negb (is_zero (Pos.x position) && is_zero (Pos.y position)).

End GraphEdges.

(** ** The state of [Graph] *)

Module Transform.
(** [{ x, y, scale }]: [screen = graph * scale + (x, y)]. *)
Record t : Type := mk { x : R; y : R; scale : R }.
End Transform.

Module HighlightedPath.
Record t : Type := mk { nodes : JSSet.t; edges : JSSet.t }.

(** [{ nodes: new Set(), edges: new Set() }] *)
Definition empty : t := mk JSSet.empty JSSet.empty.
End HighlightedPath.

Module Size.
Record t : Type := mk { width : R; height : R }.
End Size.

(** The [useState] cells of [Graph]; [expandedSections], which only the
    details panel reads, is left out. *)
Record GraphState : Type := mkGraphState {
  nodePositions : gmap string Pos.t;
  selectedNode : option Node.t;
  highlightedPath : HighlightedPath.t;
  containerSize : Size.t;
  transform : Transform.t;
  isPanning : bool;
  panStart : Pos.t;
  viewportSize : Size.t;
  expandingNode : option string
}.

Definition setNodePositions (v : gmap string Pos.t) (st : GraphState) : GraphState :=
  mkGraphState v (selectedNode st) (highlightedPath st) (containerSize st)
    (transform st) (isPanning st) (panStart st) (viewportSize st) (expandingNode st).

Definition setSelectedNode (v : option Node.t) (st : GraphState) : GraphState :=
  mkGraphState (nodePositions st) v (highlightedPath st) (containerSize st)
    (transform st) (isPanning st) (panStart st) (viewportSize st) (expandingNode st).

Definition setHighlightedPath (v : HighlightedPath.t) (st : GraphState) : GraphState :=
  mkGraphState (nodePositions st) (selectedNode st) v (containerSize st)
    (transform st) (isPanning st) (panStart st) (viewportSize st) (expandingNode st).

Definition setTransform (v : Transform.t) (st : GraphState) : GraphState :=
  mkGraphState (nodePositions st) (selectedNode st) (highlightedPath st) (containerSize st)
    v (isPanning st) (panStart st) (viewportSize st) (expandingNode st).

Definition setExpandingNode (v : option string) (st : GraphState) : GraphState :=
  mkGraphState (nodePositions st) (selectedNode st) (highlightedPath st) (containerSize st)
    (transform st) (isPanning st) (panStart st) (viewportSize st) v.

(** The state [Graph] starts from, for a container of the given size. *)
Definition initialState (width height : R) : GraphState :=
  mkGraphState ∅ None HighlightedPath.empty (Size.mk width height)
    (Transform.mk 0 0 1) false (Pos.mk 0 0) (Size.mk 5000 5000) None.

(** ** Display name *)

(** JavaScript truthiness of an optional string: absent and empty are falsy. *)
Definition truthy (o : option string) : bool :=
  match o with
  | Some s => negb (bool_decide (s = ""))
  | None => false
  end.

(** [a || b] on optional strings. *)
Definition js_or (a b : option string) : option string :=
  if truthy a then a else b.

(** [a || b] where [b] is a string that is always present. *)
Definition js_or_else (a : option string) (b : string) : string :=
  match a with
  | Some s => if bool_decide (s = "") then b else s
  | None => b
  end.

(** [node.name || node.title || `Node ${node.id}`], the expression of both
    [getNodeDisplayName] in [Graph] and [displayName] in [GraphNode]. *)
Definition getNodeDisplayName (node : Node.t) : string :=
  js_or_else (js_or (Node.name node) (Node.title node)) ("Node " +:+ Node.id node).

(** ** Viewport: wheel zoom and the zoom buttons *)

Module WheelEvent.
Record t : Type := mk { clientX : R; clientY : R; deltaY : R }.
End WheelEvent.

Module DOMRect.
Record t : Type := mk { left : R; top : R }.
End DOMRect.

#[local] Open Scope R_scope.

(** [handleWheel]; [svgRect] is [graphRef.current?.getBoundingClientRect()],
    [None] when the element is not mounted. *)
Definition handleWheel (svgRect : option DOMRect.t) (e : WheelEvent.t)
    (st : GraphState) : GraphState :=
  match svgRect with
  | None => st
  | Some svgRect =>
      let pointerX := WheelEvent.clientX e - DOMRect.left svgRect in
      let pointerY := WheelEvent.clientY e - DOMRect.top svgRect in
      let delta := WheelEvent.deltaY e * -0.005 in
      let newScale := Rmin (Rmax (Transform.scale (transform st) + delta) 0.1) 5 in
      let scaleFactor := newScale / Transform.scale (transform st) in
      let tx := pointerX - (pointerX - Transform.x (transform st)) * scaleFactor in
      let ty := pointerY - (pointerY - Transform.y (transform st)) * scaleFactor in
      setTransform (Transform.mk tx ty newScale) st
  end.

Definition handleZoomIn (st : GraphState) : GraphState :=
  let prev := transform st in
  let newScale := Rmin (Transform.scale prev + 0.2) 5 in
  setTransform (Transform.mk (Transform.x prev) (Transform.y prev) newScale) st.

Definition handleZoomOut (st : GraphState) : GraphState :=
  let prev := transform st in
  let newScale := Rmax (Transform.scale prev - 0.2) 0.1 in
  setTransform (Transform.mk (Transform.x prev) (Transform.y prev) newScale) st.

(** The three operations that change the zoom level by a step. *)
Inductive ZoomOp : Type :=
  | ZoomIn
  | ZoomOut
  | Wheel (svgRect : option DOMRect.t) (e : WheelEvent.t).

Definition zoomStep (st : GraphState) (op : ZoomOp) : GraphState :=
  match op with
  | ZoomIn => handleZoomIn st
  | ZoomOut => handleZoomOut st
  | Wheel svgRect e => handleWheel svgRect e st
  end.

Definition zoomRun (ops : list ZoomOp) (st : GraphState) : GraphState :=
  foldl zoomStep st ops.

(** The graph-space coordinate shown at screen coordinate [p]: the inverse
    of [screen = graph * scale + translate]. *)
Definition toGraph (translate scale p : R) : R := (p - translate) / scale.

(** [scale] lies in the clamp range. *)
Definition scaleInRange (s : R) : Prop := 0.1 <= s <= 5.

(** ** Highlighting *)

Section Highlight.
Variable processedData : GraphData.t.

(** [findConnectedNodes]: the node, every node that shares an edge with
    it, and the keys of those edges. *)
Definition findConnectedNodes (nodeId : string) : HighlightedPath.t :=
  foldl
    (λ acc edge,
       if bool_decide (Edge.source edge = nodeId) || bool_decide (Edge.target edge = nodeId)
       then HighlightedPath.mk
              (JSSet.add (Edge.target edge)
                 (JSSet.add (Edge.source edge) (HighlightedPath.nodes acc)))
              (JSSet.add (Edge.key edge) (HighlightedPath.edges acc))
       else acc)
    (HighlightedPath.mk (JSSet.add nodeId JSSet.empty) JSSet.empty)
    (GraphData.edges processedData).

Definition handleNodeClick (node : Node.t) (st : GraphState) : GraphState :=
  setHighlightedPath (findConnectedNodes (Node.id node)) (setSelectedNode (Some node) st).
End Highlight.

Definition handleEdgeClick (edge : Edge.t) (st : GraphState) : GraphState :=
  setHighlightedPath
    (HighlightedPath.mk
       (JSSet.of_list [Edge.source edge; Edge.target edge])
       (JSSet.of_list [Edge.key edge]))
    st.

(** ** Layout selection *)

Inductive LayoutKind : Type := circular | force | tree | spiral | donut.

#[global] Instance LayoutKind_eq_dec : EqDecision LayoutKind.
Proof. solve_decision. Defined.

(** [nodeCount > 50 && autoLayout === 'circular' ? 'donut' : autoLayout] *)
Definition actualLayout (nodeCount : nat) (autoLayout : LayoutKind) : LayoutKind :=
  if (50 <? nodeCount)%nat && bool_decide (autoLayout = circular) then donut else autoLayout.

Section Layout.
(** The layout functions and the initial zoom level come from
    [utils/graphLayout]; the effect is modelled for arbitrary ones. *)
Variables createSpiralLayout createDonutLayout createCircularLayout createForceLayout :
  list Node.t → Pos.t → Size.t → gmap string Pos.t.
Variable getInitialZoomScale : nat → R.

Variable processedData : GraphData.t.
Variable autoLayout : LayoutKind.

(** The [if]/[else if] chain that picks the layout function. *)
Definition layoutPositions (layout : LayoutKind) (center : Pos.t) (available : Size.t) :
    gmap string Pos.t :=
  let nodes := GraphData.nodes processedData in
  if bool_decide (layout = circular) then createCircularLayout nodes center available
  else if bool_decide (layout = tree) then createCircularLayout nodes center available
  else if bool_decide (layout = spiral) then createSpiralLayout nodes center available
  else if bool_decide (layout = donut) then createDonutLayout nodes center available
  else createForceLayout nodes center available.

(** The layout effect.  [transformGroupMounted] says whether
    [transformGroupRef.current] is set. *)
Definition layoutEffect (transformGroupMounted : bool) (st : GraphState) : GraphState :=
  match GraphData.nodes processedData with
  | [] => st
  | _ =>
      let nodeCount := length (GraphData.nodes processedData) in
      let availableWidth := Size.width (viewportSize st) * 0.6 in
      let availableHeight := Size.height (viewportSize st) * 0.6 in
      let center :=
        Pos.mk (Size.width (viewportSize st) / 2) (Size.height (viewportSize st) / 2) in
      let positions :=
        layoutPositions (actualLayout nodeCount autoLayout) center
          (Size.mk availableWidth availableHeight) in
      let st := setNodePositions positions st in
      if transformGroupMounted then
        let initialScale := getInitialZoomScale nodeCount in
        let translateX :=
          Size.width (containerSize st) / 2 - Size.width (viewportSize st) / 2 * initialScale in
        let translateY :=
          Size.height (containerSize st) / 2 - Size.height (viewportSize st) / 2 * initialScale in
        setTransform (Transform.mk translateX translateY initialScale) st
      else st
  end.
End Layout.

(** ** Reset on data change *)

(** The effect that depends on [processedData.nodes]: the highlight and the
    selection are cleared and only the positions of ids that are still in
    the node list are kept. *)
Definition resetEffect (processedData : GraphData.t) (st : GraphState) : GraphState :=
  let st := setHighlightedPath HighlightedPath.empty st in
  let st := setSelectedNode None st in
  let currentNodeIds := JSSet.of_list (Node.id <$> GraphData.nodes processedData) in
  let newPositions :=
    foldl (λ acc '(id, pos), if JSSet.has currentNodeIds id then <[id := pos]> acc else acc)
      (∅ : gmap string Pos.t) (map_to_list (nodePositions st)) in
  setNodePositions newPositions st.

(** ** Expansion *)

(** [s.includes(sub)] *)
Fixpoint includes (s sub : string) : bool :=
  String.prefix sub s ||
  match s with
  | EmptyString => false
  | String _ rest => includes rest sub
  end.

(** The three sets [handleExpandNode] fills while it looks for children. *)
Record Discovered : Type := mkDiscovered {
  newNodeIds : JSSet.t;
  newEdgeKeys : JSSet.t;
  childEdges : JSSet.t
}.

(** One round of [newNodeIds.add], [newEdgeKeys.add], [childEdges.add]. *)
Definition addChild (childId edgeKey : string) (d : Discovered) : Discovered :=
  mkDiscovered (JSSet.add childId (newNodeIds d))
    (JSSet.add edgeKey (newEdgeKeys d))
    (JSSet.add edgeKey (childEdges d)).

(** The radius of the circle on which revealed nodes are placed. *)
Definition radius : R := 200.

(** The point at the given angle on that circle around [center]:
    [{ x: center.x + radius * Math.cos(angle),
       y: center.y + radius * Math.sin(angle) }]. *)
Definition onCircle (center : Pos.t) (angle : R) : Pos.t :=
  Pos.mk (Pos.x center + radius * cos angle) (Pos.y center + radius * sin angle).

Section Expansion.
Variable processedData : GraphData.t.

(** The predicate of [processedData.nodes.find] for an entry of
    [outgoingDependencies]. *)
Definition matchesDependency (dep : string) (n : Node.t) : bool :=
  bool_decide (Node.id n = dep) ||
  bool_decide (Node.name n = Some dep) ||
  bool_decide (Node.title n = Some dep) ||
  bool_decide (Node.metadata n ≫= Metadata.fullName = Some dep).

(** The predicate of [processedData.nodes.find] for an import name. *)
Definition matchesImport (importName : string) (n : Node.t) : bool :=
  bool_decide (Node.id n = importName) ||
  bool_decide (Node.name n = Some importName) ||
  bool_decide (Node.title n = Some importName) ||
  match Node.metadata n ≫= Metadata.filePath with
  | Some filePath => negb (bool_decide (filePath = "")) && includes importName filePath
  | None => false
  end.

(** [typeof imp === 'string' ? imp : imp.name || imp.path] *)
Definition importNameOf (imp : Import) : option string :=
  match imp with
  | ImportString s => Some s
  | ImportObject name path => js_or name path
  end.

(** The children found through the edges that leave [node]. *)
Definition discoverEdges (node : Node.t) (d : Discovered) : Discovered :=
  foldl
    (λ d edge,
       if bool_decide (Edge.source edge = Node.id node)
       then addChild (Edge.target edge) (Edge.key edge) d
       else d)
    d (GraphData.edges processedData).

(** The children found through [metadata.outgoingDependencies]. *)
Definition discoverDependencies (node : Node.t) (deps : list string)
    (d : Discovered) : Discovered :=
  foldl
    (λ d dep,
       match List.find (matchesDependency dep) (GraphData.nodes processedData) with
       | Some dependentNode =>
           addChild (Node.id dependentNode)
             (Node.id node +:+ "-" +:+ Node.id dependentNode) d
       | None => d
       end)
    d deps.

(** The children found through [metadata.imports]. *)
Definition discoverImports (node : Node.t) (imps : list Import)
    (d : Discovered) : Discovered :=
  foldl
    (λ d imp,
       match importNameOf imp with
       | Some importName =>
           if bool_decide (importName = "") then d
           else
             match List.find (matchesImport importName) (GraphData.nodes processedData) with
             | Some importedNode =>
                 addChild (Node.id importedNode)
                   (Node.id node +:+ "-" +:+ Node.id importedNode) d
             | None => d
             end
       | None => d
       end)
    d imps.

(** Everything [handleExpandNode] discovers before it looks at positions. *)
Definition discover (node : Node.t) : Discovered :=
  let d := discoverEdges node (mkDiscovered JSSet.empty JSSet.empty JSSet.empty) in
  match Node.metadata node with
  | None => d
  | Some metadata =>
      let d :=
        match Metadata.outgoingDependencies metadata with
        | Some deps => discoverDependencies node deps d
        | None => d
        end in
      match Metadata.imports metadata with
      | Some imps => discoverImports node imps d
      | None => d
      end
  end.

(** [!nodePositions[nodeId] || (nodePositions[nodeId].x === 0 &&
    nodePositions[nodeId].y === 0)], for an id that is not the name of an
    inherited member ([Proto.unplaced] is the test for any id). *)
Definition unplaced (positions : gmap string Pos.t) (nodeId : string) : bool :=
  match positions !! nodeId with
  | None => true
  | Some p => Pos.at_origin p
  end.

(** The discovered ids that have no position yet, in discovery order. *)
Definition nodesToReveal (positions : gmap string Pos.t) (ids : JSSet.t) : JSSet.t :=
  foldl (λ acc nodeId, if unplaced positions nodeId then JSSet.add nodeId acc else acc)
    JSSet.empty (JSSet.to_array ids).

(** The start angle: [0] for one new node, [-Math.PI / 2] otherwise. *)
Definition startAngle (count : nat) : R :=
  match count with
  | 1%nat => 0
  | 2%nat => - PI / 2
  | _ => - PI / 2
  end.

(** [(2 * Math.PI) / Math.max(count, 1)] *)
Definition angleStep (count : nat) : R := 2 * PI / INR (Nat.max count 1).

(** The position given to the new node with the given index. *)
Definition placement (nodePos : Pos.t) (count index : nat) : Pos.t :=
  let angle := startAngle count + INR index * angleStep count in
  onCircle nodePos angle.

(** The [forEach] over [nodesToPlaceArray] that writes into [newPositions]. *)
Definition placeAll (nodePos : Pos.t) (nodesToPlaceArray : list string)
    (newPositions : gmap string Pos.t) : gmap string Pos.t :=
  foldl
    (λ acc '(index, id),
       <[id := placement nodePos (length nodesToPlaceArray) index]> acc)
    newPositions
    (zip (seq 0 (length nodesToPlaceArray)) nodesToPlaceArray).

Definition handleExpandNode (node : Node.t) (st : GraphState) : GraphState :=
  let st := setExpandingNode (Some (Node.id node)) st in
  let d := discover node in
  let reveal := nodesToReveal (nodePositions st) (newNodeIds d) in
  let st :=
    if (0 <? JSSet.size reveal)%nat then
      let nodePos := default Pos.origin (nodePositions st !! Node.id node) in
      if non_zero (Pos.x nodePos) || non_zero (Pos.y nodePos) then
        setNodePositions (placeAll nodePos (JSSet.to_array reveal) (nodePositions st)) st
      else st
    else st in
  let st :=
    setHighlightedPath
      (HighlightedPath.mk
         (JSSet.of_list (Node.id node :: JSSet.to_array (newNodeIds d)))
         (childEdges d))
      st in
  setSelectedNode (Some node) st.
End Expansion.

(** A node id is placed when it has a position other than the origin. *)
Definition placed (positions : gmap string Pos.t) (nodeId : string) : Prop :=
  ∃ p, positions !! nodeId = Some p ∧ p ≠ Pos.origin.

(** A change of [processedData.nodes] runs the layout effect and then the
    reset effect, in the order in which [Graph] declares them. *)
Definition nodesChanged
    (createSpiralLayout createDonutLayout createCircularLayout createForceLayout :
       list Node.t → Pos.t → Size.t → gmap string Pos.t)
    (getInitialZoomScale : nat → R) (processedData : GraphData.t)
    (autoLayout : LayoutKind) (transformGroupMounted : bool) (st : GraphState) : GraphState :=
  resetEffect processedData
    (layoutEffect createSpiralLayout createDonutLayout createCircularLayout createForceLayout
       getInitialZoomScale processedData autoLayout transformGroupMounted st).

(** What ties the sets of [handleExpandNode] together while children are
    collected: the ids are pairwise different and the edge keys are exactly
    the keys from [node] to a collected id. *)
Definition linked (node : Node.t) (d : Discovered) : Prop :=
  NoDup (newNodeIds d) ∧
  ∀ k, k ∈ childEdges d ↔
       ∃ c, c ∈ newNodeIds d ∧ k = Node.id node +:+ "-" +:+ c.

(** ** Lookups through the prototype chain *)

(** The members a plain object inherits from [Object.prototype].  The
    position object is a plain object, so [nodePositions[key]] finds one of
    them when [key] is such a name and the object has no entry of its own
    for it. *)
Definition objectPrototypeNames : list string :=
  ["constructor"; "hasOwnProperty"; "isPrototypeOf"; "propertyIsEnumerable";
   "toLocaleString"; "toString"; "valueOf"; "__defineGetter__";
   "__defineSetter__"; "__lookupGetter__"; "__lookupSetter__"; "__proto__"].

(** The functions of [GraphEdges] and [Graph] that read [nodePositions[key]]
    for a key taken from the data, with the lookup carried out in full.
    The finite map holds the entries of the object itself. *)
Module Proto.
(** The value of [nodePositions[key]]: an entry of the object, a member of
    [Object.prototype] (an object, hence truthy, whose [x] and [y] are
    [undefined]), or [undefined]. *)
Inductive Property : Type :=
  | Own (p : Pos.t)
  | Inherited
  | Undefined.

Definition getProperty (nodePositions : gmap string Pos.t) (key : string) : Property :=
  match nodePositions !! key with
  | Some p => Own p
  | None => if bool_decide (key ∈ objectPrototypeNames) then Inherited else Undefined
  end.

(** The truth value of [v] where the code writes [v && ...], [!v] or
    [v || ...]. *)
Definition truthy (v : Property) : bool :=
  match v with
  | Undefined => false
  | _ => true
  end.

(** [v.x === 0] and [v.y === 0], for [proj] the coordinate that is read.
    The coordinate of an inherited member is [undefined], which is not [0];
    the code reads a coordinate only behind a truth test, so the last case
    is never reached. *)
Definition coordinateIsZero (proj : Pos.t → R) (v : Property) : bool :=
  match v with
  | Own p => is_zero (proj p)
  | Inherited => false
  | Undefined => false
  end.

Section GraphEdges.
Variable nodePositions : gmap string Pos.t.

(** The predicate of the [edges.filter] call. *)
Definition edgeIsValid (edge : Edge.t) : bool :=
  let sourcePos := getProperty nodePositions (Edge.source edge) in
  let targetPos := getProperty nodePositions (Edge.target edge) in
  truthy sourcePos && truthy targetPos &&
  negb (coordinateIsZero Pos.x sourcePos) && negb (coordinateIsZero Pos.y sourcePos) &&
  negb (coordinateIsZero Pos.x targetPos) && negb (coordinateIsZero Pos.y targetPos).

Definition validEdges (edges : list Edge.t) : list Edge.t :=
  List.filter edgeIsValid edges.

(** The safeguard inside [validEdges.map]. *)
Definition edgeIsSkipped (edge : Edge.t) : bool :=
  let sourcePos := getProperty nodePositions (Edge.source edge) in
  let targetPos := getProperty nodePositions (Edge.target edge) in
  negb (truthy sourcePos) || negb (truthy targetPos) ||
  (coordinateIsZero Pos.x sourcePos && coordinateIsZero Pos.y sourcePos) ||
  (coordinateIsZero Pos.x targetPos && coordinateIsZero Pos.y targetPos).

(** The edges for which the component emits a line. *)
Definition renderedEdges (edges : list Edge.t) : list Edge.t :=
  match validEdges edges with
  | [] => []
  | valid => List.filter (λ edge, negb (edgeIsSkipped edge)) valid
  end.

(** The guard of the node loop of [Graph], on
    [nodePositions[node.id] || { x: 0, y: 0 }]. *)
Definition nodeIsRendered (node : Node.t) : bool :=
  let position :=
    match getProperty nodePositions (Node.id node) with
    | Undefined => Own Pos.origin
    | v => v
    end in
  negb (coordinateIsZero Pos.x position && coordinateIsZero Pos.y position).

(** [!nodePositions[nodeId] || (nodePositions[nodeId].x === 0 &&
    nodePositions[nodeId].y === 0)] *)
Definition unplaced (nodeId : string) : bool :=
  let v := getProperty nodePositions nodeId in
  negb (truthy v) || (coordinateIsZero Pos.x v && coordinateIsZero Pos.y v).

(** The discovered ids that [handleExpandNode] adds to [nodesToReveal], in
    discovery order. *)
Definition nodesToReveal (ids : JSSet.t) : JSSet.t :=
  foldl (λ acc nodeId, if unplaced nodeId then JSSet.add nodeId acc else acc)
    JSSet.empty (JSSet.to_array ids).
End GraphEdges.

(** [handleExpandNode].  The result is [None] in the one case the number
    model cannot express: something is to be revealed and
    [nodePositions[node.id]] is an inherited member, so that the new
    coordinates are [undefined + radius * Math.cos(angle)], which is NaN. *)
Definition handleExpandNode (processedData : GraphData.t) (node : Node.t)
    (st : GraphState) : option GraphState :=
  let st := setExpandingNode (Some (Node.id node)) st in
  let d := discover processedData node in
  let reveal := nodesToReveal (nodePositions st) (newNodeIds d) in
  let finish (st : GraphState) : GraphState :=
    setSelectedNode (Some node)
      (setHighlightedPath
         (HighlightedPath.mk
            (JSSet.of_list (Node.id node :: JSSet.to_array (newNodeIds d)))
            (childEdges d))
         st) in
  if (0 <? JSSet.size reveal)%nat then
    match getProperty (nodePositions st) (Node.id node) with
    | Own nodePos =>
        if non_zero (Pos.x nodePos) || non_zero (Pos.y nodePos) then
          Some (finish
                  (setNodePositions
                     (placeAll nodePos (JSSet.to_array reveal) (nodePositions st)) st))
        else Some (finish st)
    | Undefined => Some (finish st)
    | Inherited => None
    end
  else Some (finish st).

(** [handleFocusNode].  The result is [None] when [nodePositions[node.id]]
    is an inherited member: the code then selects the node and stores the
    translation [centerX - undefined * focusScale], which is NaN. *)
Definition handleFocusNode (node : Node.t) (st : GraphState) : option GraphState :=
  match getProperty (nodePositions st) (Node.id node) with
  | Undefined => Some st
  | Own nodePos =>
      let focusScale := 1.5 in
      let centerX := Size.width (containerSize st) / 2 in
      let centerY := Size.height (containerSize st) / 2 in
      let newX := centerX - Pos.x nodePos * focusScale in
      let newY := centerY - Pos.y nodePos * focusScale in
      Some (setSelectedNode (Some node)
              (setTransform (Transform.mk newX newY focusScale) st))
  | Inherited => None
  end.
End Proto.

(** ** Wheel zoom in double precision *)

(** [handleWheel] with the numbers the code computes with: IEEE 754 binary64
    values, every operation rounded to nearest. *)
Module Double.
Import PrimFloat.

Record Transform : Type := mkTransform { x : float; y : float; scale : float }.

(** [Math.max(a, b)] *)
Definition max (a b : float) : float :=
  if is_nan a || is_nan b then nan
  else if (a <? b)%float then b
  else if (b <? a)%float then a
  else if get_sign a then b else a.

(** [Math.min(a, b)] *)
Definition min (a b : float) : float :=
  if is_nan a || is_nan b then nan
  else if (a <? b)%float then a
  else if (b <? a)%float then b
  else if get_sign a then a else b.

(** The transform that [handleWheel] stores; [rectLeft] and [rectTop] are
    the corner of [svgRect]. *)
Definition handleWheel (rectLeft rectTop clientX clientY deltaY : float)
    (prev : Transform) : Transform :=
  let pointerX := (clientX - rectLeft)%float in
  let pointerY := (clientY - rectTop)%float in
  let delta := (deltaY * -0.005)%float in
  let newScale := min (max (scale prev + delta)%float 0.1%float) 5%float in
  let scaleFactor := (newScale / scale prev)%float in
  mkTransform
    (pointerX - (pointerX - x prev) * scaleFactor)%float
    (pointerY - (pointerY - y prev) * scaleFactor)%float
    newScale.

(** The graph-space coordinate shown at screen coordinate [p]. *)
Definition toGraph (translate scale p : float) : float :=
  ((p - translate) / scale)%float.

(** [0.1 <= s && s <= 5] *)
Definition inRange (s : float) : bool := (0.1 <=? s)%float && (s <=? 5)%float.

(** The transform [Graph] starts with, a pointer at [x = 119], and the
    transform after one wheel event with [deltaY = -53] at that pointer. *)
Definition start : Transform := mkTransform 0%float 0%float 1%float.
Definition pointer : float := 119%float.
Definition zoomed : Transform :=
  handleWheel 0%float 0%float pointer 0%float (-53)%float start.
Definition drifted : float := 119.00000000000001%float.
End Double.

(** ** Sample data for the worked instances *)

Module Example.
Definition node (id : string) : Node.t := Node.mk id None None None None None.
Definition edge (source target : string) : Edge.t := Edge.mk source target None.

(** A graph with the anchor [A] and its two children [P] and [Q]. *)
Definition family : GraphData.t :=
  GraphData.mk [node "A"; node "P"; node "Q"] [edge "A" "P"; edge "A" "Q"].

Definition withPositions (positions : gmap string Pos.t) : GraphState :=
  setNodePositions positions (initialState 800 600).

(** Only the anchor is placed. *)
Definition anchorOnly : gmap string Pos.t := {[ "A" := Pos.mk 300 400 ]}.

(** The anchor and both children are placed. *)
Definition allPlaced : gmap string Pos.t :=
  <[ "A" := Pos.mk 300 400 ]> (<[ "P" := Pos.mk 300 200 ]> {[ "Q" := Pos.mk 300 600 ]}).

(** [a] and [b] are placed, [c] is at the origin, [d] has no entry. *)
Definition partlyPlaced : gmap string Pos.t :=
  <[ "a" := Pos.mk 100 100 ]> (<[ "b" := Pos.mk 200 50 ]> {[ "c" := Pos.mk 0 0 ]}).


Definition wheel : WheelEvent.t := WheelEvent.mk 400 300 (-100).
Definition rect : DOMRect.t := DOMRect.mk 10 20.

(** [b] is placed and nothing else; [constructor] names a member that the
    position object inherits. *)
Definition onlyB : gmap string Pos.t := {[ "b" := Pos.mk 100 100 ]}.
Definition inheritedEdge : Edge.t := edge "constructor" "b".

(** The anchor [A] with the children [constructor] and [Q]. *)
Definition inheritedChild : GraphData.t :=
  GraphData.mk [node "A"; node "constructor"; node "Q"]
    [edge "A" "constructor"; edge "A" "Q"].

Definition emptyLayout (nodes : list Node.t) (center : Pos.t) (size : Size.t) :
    gmap string Pos.t := ∅.
Definition centerLayout (nodes : list Node.t) (center : Pos.t) (size : Size.t) :
    gmap string Pos.t := {[ "center" := center ]}.

(** A component that names one dependency and imports one file; the
    imported node is known by its file path only. *)
Definition app : Node.t :=
  Node.mk "app" (Some "App") None None None
    (Some (Metadata.mk (Some ["Store"; "Missing"])
             (Some [ImportObject None (Some "./lib/util.ts"); ImportString ""])
             None None None)).
Definition store : Node.t := Node.mk "s1" (Some "Store") None None None None.
Definition util : Node.t :=
  Node.mk "u1" None None None None
    (Some (Metadata.mk None None None (Some "lib/util.ts") None)).
Definition project : GraphData.t :=
  GraphData.mk [app; store; util] [edge "app" "s1"; edge "s1" "u1"].
End Example.

(** ** Further handlers of [Graph] *)

Definition setIsPanning (v : bool) (st : GraphState) : GraphState :=
  mkGraphState (nodePositions st) (selectedNode st) (highlightedPath st) (containerSize st)
    (transform st) v (panStart st) (viewportSize st) (expandingNode st).

Definition setPanStart (v : Pos.t) (st : GraphState) : GraphState :=
  mkGraphState (nodePositions st) (selectedNode st) (highlightedPath st) (containerSize st)
    (transform st) (isPanning st) v (viewportSize st) (expandingNode st).

(** The meaning of the attribute [translate(x y) scale(s)] of the group that
    holds the graph: the screen coordinate of the graph coordinate [g]. *)
Definition toScreen (translate scale g : R) : R := g * scale + translate.

(** [handleNodePositionChange]: [{ ...prev, [id]: newPosition }]. *)
Definition handleNodePositionChange (id : string) (newPosition : Pos.t)
    (st : GraphState) : GraphState :=
  setNodePositions (<[id := newPosition]> (nodePositions st)) st.

(** The [onPositionChange] callback that [Graph] hands to the node drawn at
    [position]: the node reports [newPos] in the coordinates of its own box,
    whose centre is at [180 * nodeSizeScale / 2]. *)
Definition onPositionChange (nodeSizeScale : R) (position : Pos.t) (id : string)
    (newPos : Pos.t) (st : GraphState) : GraphState :=
  let graphPos :=
    Pos.mk (Pos.x position + (Pos.x newPos - 180 * nodeSizeScale / 2))
           (Pos.y position + (Pos.y newPos - 180 * nodeSizeScale / 2)) in
  handleNodePositionChange id graphPos st.

(** [handleBackgroundClick]; [onBackground] is [e.target === e.currentTarget]. *)
Definition handleBackgroundClick (onBackground : bool) (st : GraphState) : GraphState :=
  if onBackground then
    setHighlightedPath HighlightedPath.empty (setSelectedNode None st)
  else st.

(** [node.type || 'unknown'] *)
Definition getNodeDisplayType (node : Node.t) : string :=
  js_or_else (Node.type node) "unknown".

(** [node.filepath || node.metadata?.filePath || node.metadata?.path || ''] *)
Definition getNodeDisplayPath (node : Node.t) : string :=
  js_or_else
    (js_or (js_or (Node.filepath node) (Node.metadata node ≫= Metadata.filePath))
           (Node.metadata node ≫= Metadata.path))
    "".

(** [toggleSection]: the updater given to [setExpandedSections]. *)
Definition toggleSection (sectionId : string) (prev : JSSet.t) : JSSet.t :=
  let newSet := JSSet.of_list (JSSet.to_array prev) in
  if JSSet.has newSet sectionId
  then List.filter (λ k, negb (bool_decide (k = sectionId))) newSet
  else JSSet.add sectionId newSet.

Module MouseEvent.
Record t : Type := mk { clientX : R; clientY : R }.
End MouseEvent.

(** [handleMouseDown]; [onBackground] says whether the target is the [svg]
    element or carries the class [graph-background]. *)
Definition handleMouseDown (onBackground : bool) (e : MouseEvent.t)
    (st : GraphState) : GraphState :=
  if onBackground then
    setPanStart
      (Pos.mk (MouseEvent.clientX e - Transform.x (transform st))
              (MouseEvent.clientY e - Transform.y (transform st)))
      (setIsPanning true st)
  else st.

Definition handleMouseMove (e : MouseEvent.t) (st : GraphState) : GraphState :=
  if isPanning st then
    setTransform
      (Transform.mk (MouseEvent.clientX e - Pos.x (panStart st))
                    (MouseEvent.clientY e - Pos.y (panStart st))
                    (Transform.scale (transform st)))
      st
  else st.

Definition handleMouseUp (st : GraphState) : GraphState := setIsPanning false st.

(** [handleFocusNode], for a node whose id is not the name of an inherited
    member ([Proto.handleFocusNode] is the handler for any node). *)
Definition handleFocusNode (node : Node.t) (st : GraphState) : GraphState :=
  match nodePositions st !! Node.id node with
  | None => st
  | Some nodePos =>
      let focusScale := 1.5 in
      let centerX := Size.width (containerSize st) / 2 in
      let centerY := Size.height (containerSize st) / 2 in
      let newX := centerX - Pos.x nodePos * focusScale in
      let newY := centerY - Pos.y nodePos * focusScale in
      setSelectedNode (Some node) (setTransform (Transform.mk newX newY focusScale) st)
  end.

Section GraphHandlers.
Variable getInitialZoomScale : nat → R.
Variable processedData : GraphData.t.


(** The two sets that [handleShowDependencies] (and [handleGoToParent])
    collect: the sources of the edges into [nodeId] and the keys of those
    edges. *)
Definition incoming (nodeId : string) : JSSet.t * JSSet.t :=
  foldl
    (λ '(dependencies, dependencyEdges) edge,
       if bool_decide (Edge.target edge = nodeId)
       then (JSSet.add (Edge.source edge) dependencies,
             JSSet.add (Edge.key edge) dependencyEdges)
       else (dependencies, dependencyEdges))
    (JSSet.empty, JSSet.empty) (GraphData.edges processedData).

(** The two sets that [handleShowDependents] collects. *)
Definition outgoing (nodeId : string) : JSSet.t * JSSet.t :=
  foldl
    (λ '(dependents, dependentEdges) edge,
       if bool_decide (Edge.source edge = nodeId)
       then (JSSet.add (Edge.target edge) dependents,
             JSSet.add (Edge.key edge) dependentEdges)
       else (dependents, dependentEdges))
    (JSSet.empty, JSSet.empty) (GraphData.edges processedData).

Definition handleShowDependencies (node : Node.t) (st : GraphState) : GraphState :=
  let '(dependencies, dependencyEdges) := incoming (Node.id node) in
  setHighlightedPath
    (HighlightedPath.mk
       (JSSet.of_list (Node.id node :: JSSet.to_array dependencies))
       dependencyEdges)
    st.

Definition handleShowDependents (node : Node.t) (st : GraphState) : GraphState :=
  let '(dependents, dependentEdges) := outgoing (Node.id node) in
  setHighlightedPath
    (HighlightedPath.mk
       (JSSet.of_list (Node.id node :: JSSet.to_array dependents))
       dependentEdges)
    st.

(** [handleGoToParent]: the highlight of the parents, and the selection of
    the parent when there is exactly one and the node list knows it. *)
Definition handleGoToParent (node : Node.t) (st : GraphState) : GraphState :=
  let '(parents, parentEdges) := incoming (Node.id node) in
  let st :=
    setHighlightedPath
      (HighlightedPath.mk
         (JSSet.of_list (Node.id node :: JSSet.to_array parents))
         parentEdges)
      st in
  match JSSet.to_array parents with
  | [parentId] =>
      match List.find (λ n, bool_decide (Node.id n = parentId))
              (GraphData.nodes processedData) with
      | Some parentNode => setSelectedNode (Some parentNode) st
      | None => st
      end
  | _ => st
  end.

(** [nodeStats]: the number of nodes and, for every display type, the number
    of nodes of that type. *)
Record NodeStats : Type := mkNodeStats {
  total : nat;
  types : gmap string nat
}.

Definition nodeStats : NodeStats :=
  mkNodeStats
    (length (GraphData.nodes processedData))
    (foldl
       (λ (types : gmap string nat) node,
          let type := getNodeDisplayType node in
          <[type := (default 0 (types !! type) + 1)%nat]> types)
       ∅ (GraphData.nodes processedData)).
End GraphHandlers.

(** ** Edge highlighting in [GraphEdges] *)

(** [selectedNode && (selectedNode.id === edge.source ||
    selectedNode.id === edge.target)] *)
Definition isHighlighted (selectedNode : option Node.t) (edge : Edge.t) : bool :=
  match selectedNode with
  | Some selected =>
      bool_decide (Node.id selected = Edge.source edge) ||
      bool_decide (Node.id selected = Edge.target edge)
  | None => false
  end.

(** [highlightedPath.edges.has(`${edge.source}-${edge.target}`)] *)
Definition isPathHighlighted (highlightedPath : HighlightedPath.t) (edge : Edge.t) : bool :=
  JSSet.has (HighlightedPath.edges highlightedPath) (Edge.key edge).

(** The stroke width chosen for an edge, before it is divided by the zoom
    scale. *)
Definition strokeWidth (selectedNode : option Node.t) (highlightedPath : HighlightedPath.t)
    (edge : Edge.t) : R :=
  if isPathHighlighted highlightedPath edge then 2.5
  else if isHighlighted selectedNode edge then 2
  else 1.5.

(** An id without the character [-]. *)
Definition dashFree (s : string) : Prop := includes s "-" = false.

(** ** Comparisons on numbers *)

#[global] Instance R_lt_dec : RelDecision Rlt := Rlt_dec.
#[global] Instance R_gt_dec : RelDecision Rgt := Rgt_dec.
#[global] Instance R_le_dec : RelDecision Rle := Rle_dec.
#[global] Instance R_ge_dec : RelDecision Rge := Rge_dec.

(** ** The node component ([graph-node/GraphNode.tsx]) *)

(** The node object that [Graph] passes to the node component:
    [{ ...node, name: displayName, type: displayType, filepath: displayPath }]. *)
Definition renderedNode (node : Node.t) : Node.t :=
  Node.mk (Node.id node) (Some (getNodeDisplayName node)) (Node.title node)
    (Some (getNodeDisplayType node)) (Some (getNodeDisplayPath node))
    (Node.metadata node).

Module GraphNodeComponent.

(** The [useState] cells of the node component. *)
Record State : Type := mkState {
  showMenu : bool;
  showTooltip : bool;
  tooltipPosition : Pos.t;
  showContextMenu : bool;
  contextMenuPosition : Pos.t
}.

Definition initial : State := mkState false false (Pos.mk 0 0) false (Pos.mk 0 0).

Definition setShowMenu (v : bool) (st : State) : State :=
  mkState v (showTooltip st) (tooltipPosition st) (showContextMenu st)
    (contextMenuPosition st).

Definition setShowTooltip (v : bool) (st : State) : State :=
  mkState (showMenu st) v (tooltipPosition st) (showContextMenu st)
    (contextMenuPosition st).

Definition setTooltipPosition (v : Pos.t) (st : State) : State :=
  mkState (showMenu st) (showTooltip st) v (showContextMenu st)
    (contextMenuPosition st).

Definition setShowContextMenu (v : bool) (st : State) : State :=
  mkState (showMenu st) (showTooltip st) (tooltipPosition st) v
    (contextMenuPosition st).

Definition setContextMenuPosition (v : Pos.t) (st : State) : State :=
  mkState (showMenu st) (showTooltip st) (tooltipPosition st) (showContextMenu st) v.

(** The position stored in [contextMenuPosition] for a pointer at [(x, y)]
    in a window of the given inner size.  It is handed to [NodeMenu], which
    places itself by a style of its own and does not read it. *)
Definition contextMenuAnchor (x y viewportWidth viewportHeight : R) : Pos.t :=
  let menuWidth := 200 in
  let menuHeight := 350 in
  let adjustedX :=
    if bool_decide (x + menuWidth > viewportWidth)
    then viewportWidth - menuWidth - 10 else x in
  let adjustedY :=
    if bool_decide (y + menuHeight > viewportHeight)
    then viewportHeight - menuHeight - 10 else y in
  Pos.mk (Rmax 10 adjustedX) (Rmax 10 adjustedY).

(** [handleContextMenu], with the callback it defers by [setTimeout(_, 0)]
    run right after it. *)
Definition handleContextMenu (e : MouseEvent.t) (viewportWidth viewportHeight : R)
    (st : State) : State :=
  let st := setShowMenu false st in
  let st := setShowContextMenu false st in
  let anchor :=
    contextMenuAnchor (MouseEvent.clientX e) (MouseEvent.clientY e)
      viewportWidth viewportHeight in
  let st := setContextMenuPosition anchor st in
  setShowContextMenu true st.

Definition handleMenuClick (st : State) : State :=
  setShowContextMenu false (setShowTooltip false (setShowMenu (negb (showMenu st)) st)).

Definition handleMouseEnter (totalNodesInView : nat) (st : State) : State :=
  if (3 <? totalNodesInView)%nat then setShowTooltip true st else st.

Definition handleMouseLeave (st : State) : State := setShowTooltip false st.

(** The listener on [document] that closes the context menu. *)
Definition handleDocumentClick (st : State) : State :=
  if showContextMenu st then setShowContextMenu false st else st.

(** What happens to the node component. *)
Inductive Event : Type :=
  | ContextMenu (e : MouseEvent.t) (viewportWidth viewportHeight : R)
  | MenuClick
  | MouseEnter
  | MouseLeave
  | DocumentClick
  | CloseMenu
  | CloseContextMenu.

Definition step (totalNodesInView : nat) (st : State) (ev : Event) : State :=
  match ev with
  | ContextMenu e viewportWidth viewportHeight =>
      handleContextMenu e viewportWidth viewportHeight st
  | MenuClick => handleMenuClick st
  | MouseEnter => handleMouseEnter totalNodesInView st
  | MouseLeave => handleMouseLeave st
  | DocumentClick => handleDocumentClick st
  | CloseMenu => setShowMenu false st
  | CloseContextMenu => setShowContextMenu false st
  end.

Definition run (totalNodesInView : nat) (events : list Event) (st : State) : State :=
  foldl (step totalNodesInView) st events.

(** [show] of the tooltip and of the inline details. *)
Definition tooltipShown (totalNodesInView : nat) (st : State) : bool :=
  showTooltip st && (3 <? totalNodesInView)%nat.

Definition inlineDetailsShown (totalNodesInView : nat) : bool :=
  (totalNodesInView <=? 3)%nat.

(** [totalNodesInView > 50 ? Math.max(0.7, 1 - totalNodesInView / 300) : 1] *)
Definition sizeAdjustment (totalNodesInView : nat) : R :=
  if (50 <? totalNodesInView)%nat
  then Rmax 0.7 (1 - INR totalNodesInView / 300)
  else 1.

Definition nodeWidth (sizeScale : R) (totalNodesInView : nat) : R :=
  let baseNodeWidth := 180 in
  baseNodeWidth * sizeScale * sizeAdjustment totalNodesInView.

(** The effect that keeps the tooltip above the right half of the node. *)
Definition tooltipEffect (position : Pos.t) (sizeScale : R) (totalNodesInView : nat)
    (st : State) : State :=
  setTooltipPosition
    (Pos.mk (Pos.x position + nodeWidth sizeScale totalNodesInView / 2)
            (Pos.y position - 20))
    st.

(** [displayName] and [displayType] are the expressions of [Graph]. *)
Definition displayName (node : Node.t) : string := getNodeDisplayName node.
Definition displayType (node : Node.t) : string := getNodeDisplayType node.

(** [displayPath]: the file path, cut to its last 25 characters when it is
    longer (a character is one element of the string). *)
Definition displayPath (node : Node.t) : string :=
  let path := js_or_else (Node.filepath node) "" in
  if bool_decide (path = "") then ""
  else if (25 <? String.length path)%nat
       then "..." +:+ String.substring (String.length path - 25) 25 path
       else path.

End GraphNodeComponent.

(** ** The details panel ([graph/NodeDetailsPanel.tsx]) *)

Module NodeDetailsPanel.

Record State : Type := mkState {
  isDragging : bool;
  panelPosition : Pos.t;
  dragOffset : Pos.t
}.

(** The initial values of the three cells, for a node at [position]. *)
Definition initial (position : Pos.t) (containerSize : Size.t) : State :=
  mkState false
    (Pos.mk
       (Rmin (Rmax (Pos.x position + 20) 20) (Size.width containerSize - 370))
       (Rmin (Rmax (Pos.y position - 20) 20) (Size.height containerSize - 300)))
    (Pos.mk 0 0).

(** The position the effect on [position] and [containerSize] gives to the
    panel. *)
Definition placePanel (position : Pos.t) (containerSize : Size.t) : Pos.t :=
  let panelWidth := 350 in
  let panelHeight := 400 in
  let spaceRight := Size.width containerSize - Pos.x position in
  let spaceLeft := Pos.x position in
  let spaceBelow := Size.height containerSize - Pos.y position in
  let spaceAbove := Pos.y position in
  let x :=
    if bool_decide (spaceRight >= panelWidth + 20) then Pos.x position + 20
    else if bool_decide (spaceLeft >= panelWidth + 20)
         then Pos.x position - panelWidth - 20
         else Rmax 20 ((Size.width containerSize - panelWidth) / 2) in
  let y :=
    if bool_decide (spaceBelow >= panelHeight + 20) then Pos.y position + 20
    else if bool_decide (spaceAbove >= panelHeight + 20)
         then Pos.y position - panelHeight - 20
         else Rmax 20 ((Size.height containerSize - panelHeight) / 2) in
  Pos.mk (Rmin (Rmax x 20) (Size.width containerSize - panelWidth - 20))
         (Rmin (Rmax y 20) (Size.height containerSize - panelHeight - 20)).

Definition positionEffect (position : Pos.t) (containerSize : Size.t) (st : State) : State :=
  mkState (isDragging st) (placePanel position containerSize) (dragOffset st).

(** [handleMouseDown]; [onHeader] says whether the target lies in the panel
    header and [rect] is [panelRef.current?.getBoundingClientRect()]. *)
Definition handleMouseDown (onHeader : bool) (rect : option DOMRect.t) (e : MouseEvent.t)
    (st : State) : State :=
  if onHeader then
    match rect with
    | Some rect =>
        mkState true (panelPosition st)
          (Pos.mk (MouseEvent.clientX e - DOMRect.left rect)
                  (MouseEvent.clientY e - DOMRect.top rect))
    | None => mkState true (panelPosition st) (dragOffset st)
    end
  else st.

Definition handleMouseMove (containerSize : Size.t) (e : MouseEvent.t) (st : State) : State :=
  if isDragging st then
    let newX :=
      Rmax 0 (Rmin (MouseEvent.clientX e - Pos.x (dragOffset st))
                   (Size.width containerSize - 350)) in
    let newY :=
      Rmax 0 (Rmin (MouseEvent.clientY e - Pos.y (dragOffset st))
                   (Size.height containerSize - 300)) in
    mkState (isDragging st) (Pos.mk newX newY) (dragOffset st)
  else st.

Definition handleMouseUp (st : State) : State :=
  mkState false (panelPosition st) (dragOffset st).

End NodeDetailsPanel.

(** An edge touches a node when the node is its source or its target. *)
Definition touches (nodeId : string) (edge : Edge.t) : Prop :=
  Edge.source edge = nodeId ∨ Edge.target edge = nodeId.

(** The number of nodes whose display type is [type], and the sum of the
    counts of a statistics table. *)
Definition typeCount (type : string) (nodes : list Node.t) : nat :=
  length (List.filter (λ node, bool_decide (getNodeDisplayType node = type)) nodes).

Definition sumCounts (types : gmap string nat) : nat :=
  map_fold (λ _ count acc, (count + acc)%nat) 0%nat types.

(** ** Interactions with [Graph] *)

(** The handlers of [Graph] that a user can trigger without the help of
    [utils/graphLayout], and the reset effect.  "Reset view" and the layout
    effect, which call [getInitialZoomScale], join them in [ViewEvent]. *)
Inductive Interaction : Type :=
  | DoZoom (op : ZoomOp)
  | DoMouseDown (onBackground : bool) (e : MouseEvent.t)
  | DoMouseMove (e : MouseEvent.t)
  | DoMouseUp
  | DoNodeClick (node : Node.t)
  | DoEdgeClick (edge : Edge.t)
  | DoBackgroundClick (onBackground : bool)
  | DoShowDependencies (node : Node.t)
  | DoShowDependents (node : Node.t)
  | DoGoToParent (node : Node.t)
  | DoExpandNode (node : Node.t)
  | DoFocusNode (node : Node.t)
  | DoPositionChange (id : string) (newPosition : Pos.t)
  | DoDataReset.

Definition interact (processedData : GraphData.t) (st : GraphState) (i : Interaction) :
    GraphState :=
  match i with
  | DoZoom op => zoomStep st op
  | DoMouseDown onBackground e => handleMouseDown onBackground e st
  | DoMouseMove e => handleMouseMove e st
  | DoMouseUp => handleMouseUp st
  | DoNodeClick node => handleNodeClick processedData node st
  | DoEdgeClick edge => handleEdgeClick edge st
  | DoBackgroundClick onBackground => handleBackgroundClick onBackground st
  | DoShowDependencies node => handleShowDependencies processedData node st
  | DoShowDependents node => handleShowDependents processedData node st
  | DoGoToParent node => handleGoToParent processedData node st
  | DoExpandNode node => handleExpandNode processedData node st
  | DoFocusNode node => handleFocusNode node st
  | DoPositionChange id newPosition => handleNodePositionChange id newPosition st
  | DoDataReset => resetEffect processedData st
  end.

(** The ids of the node list. *)
Definition nodeIds (processedData : GraphData.t) : list string :=
  Node.id <$> GraphData.nodes processedData.

(** Every edge of the data joins two nodes of the node list. *)
Definition edgesJoinNodes (processedData : GraphData.t) : Prop :=
  ∀ edge, edge ∈ GraphData.edges processedData →
          Edge.source edge ∈ nodeIds processedData ∧
          Edge.target edge ∈ nodeIds processedData.

(** The node or edge that an interaction is about belongs to the data. *)
Definition aboutData (processedData : GraphData.t) (i : Interaction) : Prop :=
  match i with
  | DoNodeClick node | DoShowDependencies node | DoShowDependents node
  | DoGoToParent node | DoExpandNode node | DoFocusNode node =>
      Node.id node ∈ nodeIds processedData
  | DoEdgeClick edge => edge ∈ GraphData.edges processedData
  | DoPositionChange id _ => id ∈ nodeIds processedData
  | _ => True
  end.

(** ** Everything that writes the transform *)


Section View.
Variables createSpiralLayout createDonutLayout createCircularLayout createForceLayout :
  list Node.t → Pos.t → Size.t → gmap string Pos.t.
Variable getInitialZoomScale : nat → R.
Variable processedData : GraphData.t.
Variable autoLayout : LayoutKind.


End View.


(** ** More sample data *)

Module Sample.
(** Two parents [a] and [b] of one child [c]. *)
Definition diamond : GraphData.t :=
  GraphData.mk [Example.node "a"; Example.node "b"; Example.node "c"]
    [Example.edge "a" "c"; Example.edge "b" "c"].

Definition down : MouseEvent.t := MouseEvent.mk 100 100.
Definition move : MouseEvent.t := MouseEvent.mk 130 90.
Definition last : MouseEvent.t := MouseEvent.mk 150 80.

(** A node whose file path has 35 characters. *)
Definition deepFile : Node.t :=
  Node.mk "f1" None None None (Some "src/components/graph/GraphEdges.tsx") None.

(** A node of type [hook] and two nodes without a type. *)
Definition typed : GraphData.t :=
  GraphData.mk
    [Node.mk "h" None None (Some "hook") None None; Example.node "x"; Example.node "y"] [].

End Sample.

(** * Properties *)

(** ** Numbers and points *)

Lemma is_zero_true (a : R) : is_zero a = true ↔ a = 0.
Proof. unfold is_zero. apply bool_decide_eq_true. Qed.

Lemma is_zero_false (a : R) : is_zero a = false ↔ a ≠ 0.
Proof. unfold is_zero. apply bool_decide_eq_false. Qed.

Lemma non_zero_true (a : R) : non_zero a = true ↔ a ≠ 0.
Proof. unfold non_zero. rewrite negb_true_iff. apply is_zero_false. Qed.

Lemma non_zero_false (a : R) : non_zero a = false ↔ a = 0.
Proof. unfold non_zero. rewrite negb_false_iff. apply is_zero_true. Qed.

Lemma at_origin_true (p : Pos.t) : Pos.at_origin p = true ↔ p = Pos.origin.
Proof.
  unfold Pos.at_origin, Pos.origin. rewrite andb_true_iff, !is_zero_true.
  destruct p as [px py]; simpl. split.
  - intros [-> ->]. reflexivity.
  - intros H. injection H as -> ->. split; reflexivity.
Qed.

Lemma at_origin_false (p : Pos.t) : Pos.at_origin p = false ↔ p ≠ Pos.origin.
Proof.
  rewrite <- at_origin_true. destruct (Pos.at_origin p); split; congruence.
Qed.

Lemma unplaced_false (positions : gmap string Pos.t) (nodeId : string) :
  unplaced positions nodeId = false ↔ placed positions nodeId.
Proof.
  unfold unplaced, placed. destruct (positions !! nodeId) as [p|].
  - rewrite at_origin_false. split.
    + intros H. exists p. split; [reflexivity | exact H].
    + intros (q & Hq & Hne). congruence.
  - split; [discriminate | intros (q & Hq & _); discriminate].
Qed.

(** ** JavaScript sets *)

Module JSSetFacts.
Lemma has_true (s : JSSet.t) (k : string) : JSSet.has s k = true ↔ k ∈ s.
Proof. unfold JSSet.has. apply bool_decide_eq_true. Qed.

Lemma elem_of_add (k x : string) (s : JSSet.t) :
  x ∈ JSSet.add k s ↔ x = k ∨ x ∈ s.
Proof.
  unfold JSSet.add. destruct (JSSet.has s k) eqn:Hk.
  - apply has_true in Hk. split; [auto | intros [-> | H]; assumption].
  - rewrite elem_of_app, list_elem_of_singleton. tauto.
Qed.

Lemma NoDup_add (k : string) (s : JSSet.t) : NoDup s → NoDup (JSSet.add k s).
Proof.
  intros Hs. unfold JSSet.add. destruct (JSSet.has s k) eqn:Hk; [exact Hs |].
  apply NoDup_app. split; [exact Hs |]. split.
  - intros x Hx Hx'. apply list_elem_of_singleton in Hx'. subst x.
    apply has_true in Hx. congruence.
  - apply NoDup_singleton.
Qed.

Lemma add_fresh (k : string) (s : JSSet.t) : k ∉ s → JSSet.add k s = s ++ [k].
Proof.
  intros Hk. unfold JSSet.add. destruct (JSSet.has s k) eqn:E; [| reflexivity].
  apply has_true in E. contradiction.
Qed.

Lemma elem_of_foldl_add (l : list string) (s : JSSet.t) (x : string) :
  x ∈ foldl (λ s k, JSSet.add k s) s l ↔ x ∈ s ∨ x ∈ l.
Proof.
  revert s. induction l as [|k l IH]; intros s; simpl.
  - rewrite elem_of_nil. tauto.
  - rewrite IH, elem_of_add, elem_of_cons. tauto.
Qed.

Lemma elem_of_of_list (l : list string) (x : string) : x ∈ JSSet.of_list l ↔ x ∈ l.
Proof.
  unfold JSSet.of_list. rewrite elem_of_foldl_add. unfold JSSet.empty.
  rewrite elem_of_nil. tauto.
Qed.

Lemma NoDup_foldl_add (l : list string) (s : JSSet.t) :
  NoDup s → NoDup (foldl (λ s k, JSSet.add k s) s l).
Proof.
  revert s. induction l as [|k l IH]; intros s Hs; simpl; [exact Hs |].
  apply IH, NoDup_add, Hs.
Qed.

Lemma NoDup_of_list (l : list string) : NoDup (JSSet.of_list l).
Proof. apply NoDup_foldl_add, NoDup_nil_2. Qed.
End JSSetFacts.

(** ** Renderable edges *)

Lemma elem_of_list_filter {A : Type} (f : A → bool) (l : list A) (a : A) :
  a ∈ List.filter f l ↔ a ∈ l ∧ f a = true.
Proof. rewrite !list_elem_of_In. apply filter_In. Qed.

Lemma edgeIsValid_true (positions : gmap string Pos.t) (edge : Edge.t) :
  edgeIsValid positions edge = true ↔
  ∃ sourcePos targetPos,
    positions !! Edge.source edge = Some sourcePos ∧
    positions !! Edge.target edge = Some targetPos ∧
    Pos.x sourcePos ≠ 0 ∧ Pos.y sourcePos ≠ 0 ∧
    Pos.x targetPos ≠ 0 ∧ Pos.y targetPos ≠ 0.
Proof.
  unfold edgeIsValid.
  destruct (positions !! Edge.source edge) as [sp|], (positions !! Edge.target edge) as [tp|].
  - rewrite !andb_true_iff, !non_zero_true. split.
    + intros [[[? ?] ?] ?]. exists sp, tp. tauto.
    + intros (sp' & tp' & Hs & Ht & H). injection Hs as <-. injection Ht as <-. tauto.
  - split; [discriminate | intros (? & ? & _ & ? & _); discriminate].
  - split; [discriminate | intros (? & ? & ? & _); discriminate].
  - split; [discriminate | intros (? & ? & ? & _); discriminate].
Qed.

Lemma renderedEdges_valid (positions : gmap string Pos.t) (edges : list Edge.t)
    (edge : Edge.t) :
  edge ∈ renderedEdges positions edges → edge ∈ validEdges positions edges.
Proof.
  unfold renderedEdges. destruct (validEdges positions edges) as [|e0 valid] eqn:E.
  - intros H. exact H.
  - intros H. apply elem_of_list_filter in H. tauto.
Qed.

Lemma placed_of_coordinate (positions : gmap string Pos.t) (nodeId : string) (p : Pos.t) :
  positions !! nodeId = Some p → Pos.x p ≠ 0 → placed positions nodeId.
Proof.
  intros Hp Hx. exists p. split; [exact Hp |]. intros ->. apply Hx. reflexivity.
Qed.

(** For the lookup among the entries of the position object: an edge is in
    [validEdges], and among the lines emitted from it, only if its source
    and its target both have an entry that is not the origin [(0,0)]; an
    edge one of whose endpoints has no entry, or the origin as its position,
    is in neither. *)
Lemma validEdges_entries_placed (positions : gmap string Pos.t)
    (edges : list Edge.t) (edge : Edge.t) :
  (edge ∈ validEdges positions edges →
     placed positions (Edge.source edge) ∧ placed positions (Edge.target edge)) ∧
  (unplaced positions (Edge.source edge) = true ∨
   unplaced positions (Edge.target edge) = true →
     (edge ∉ validEdges positions edges) ∧ (edge ∉ renderedEdges positions edges)).
Proof.
  assert (Hvalid : edge ∈ validEdges positions edges →
            placed positions (Edge.source edge) ∧ placed positions (Edge.target edge)).
  { intros H. apply elem_of_list_filter in H as [_ H].
    apply edgeIsValid_true in H as (sp & tp & Hs & Ht & Hsx & _ & Htx & _).
    split; eauto using placed_of_coordinate. }
  split; [exact Hvalid |].
  intros Hun.
  assert (Hnot : edge ∉ validEdges positions edges).
  { intros Hin. destruct (Hvalid Hin) as [Hs Ht].
    apply unplaced_false in Hs, Ht. destruct Hun; congruence. }
  split; [exact Hnot |]. intros Hin. apply Hnot, renderedEdges_valid, Hin.
Qed.

(** *** The lookup through the prototype chain *)

Lemma Proto_getProperty_entry (positions : gmap string Pos.t) (key : string) (p : Pos.t) :
  positions !! key = Some p → Proto.getProperty positions key = Proto.Own p.
Proof. intros H. unfold Proto.getProperty. rewrite H. reflexivity. Qed.

Lemma Proto_getProperty_inherited (positions : gmap string Pos.t) (key : string) :
  positions !! key = None → key ∈ objectPrototypeNames →
  Proto.getProperty positions key = Proto.Inherited.
Proof.
  intros H Hin. unfold Proto.getProperty. rewrite H.
  rewrite bool_decide_eq_true_2 by exact Hin. reflexivity.
Qed.

Lemma Proto_getProperty_undefined (positions : gmap string Pos.t) (key : string) :
  positions !! key = None → key ∉ objectPrototypeNames →
  Proto.getProperty positions key = Proto.Undefined.
Proof.
  intros H Hin. unfold Proto.getProperty. rewrite H.
  rewrite bool_decide_eq_false_2 by exact Hin. reflexivity.
Qed.

(** For a key that is not the name of a member of [Object.prototype],
    [nodePositions[key]] is the lookup among the entries. *)
Lemma Proto_getProperty_plain (positions : gmap string Pos.t) (key : string) :
  key ∉ objectPrototypeNames →
  Proto.getProperty positions key =
  match positions !! key with
  | Some p => Proto.Own p
  | None => Proto.Undefined
  end.
Proof.
  intros Hkey. unfold Proto.getProperty. destruct (positions !! key); [reflexivity |].
  rewrite bool_decide_eq_false_2 by exact Hkey. reflexivity.
Qed.

Lemma Proto_edgeIsValid_plain (positions : gmap string Pos.t) (edge : Edge.t) :
  Edge.source edge ∉ objectPrototypeNames →
  Edge.target edge ∉ objectPrototypeNames →
  Proto.edgeIsValid positions edge = edgeIsValid positions edge.
Proof.
  intros Hs Ht. unfold Proto.edgeIsValid, edgeIsValid. cbn zeta.
  rewrite !Proto_getProperty_plain by assumption.
  destruct (positions !! Edge.source edge) as [sp|],
           (positions !! Edge.target edge) as [tp|]; reflexivity.
Qed.

Lemma Proto_edgeIsSkipped_plain (positions : gmap string Pos.t) (edge : Edge.t) :
  Edge.source edge ∉ objectPrototypeNames →
  Edge.target edge ∉ objectPrototypeNames →
  Proto.edgeIsSkipped positions edge = edgeIsSkipped positions edge.
Proof.
  intros Hs Ht. unfold Proto.edgeIsSkipped, edgeIsSkipped. cbn zeta.
  rewrite !Proto_getProperty_plain by assumption.
  destruct (positions !! Edge.source edge) as [sp|],
           (positions !! Edge.target edge) as [tp|]; reflexivity.
Qed.

Lemma Proto_unplaced_plain (positions : gmap string Pos.t) (nodeId : string) :
  nodeId ∉ objectPrototypeNames →
  Proto.unplaced positions nodeId = unplaced positions nodeId.
Proof.
  intros Hk. unfold Proto.unplaced, unplaced. cbn zeta.
  rewrite Proto_getProperty_plain by exact Hk.
  destruct (positions !! nodeId); reflexivity.
Qed.

Lemma Proto_nodeIsRendered_plain (positions : gmap string Pos.t) (node : Node.t) :
  Node.id node ∉ objectPrototypeNames →
  Proto.nodeIsRendered positions node = nodeIsRendered positions node.
Proof.
  intros Hk. unfold Proto.nodeIsRendered, nodeIsRendered. cbn zeta.
  rewrite Proto_getProperty_plain by exact Hk.
  destruct (positions !! Node.id node); reflexivity.
Qed.

Lemma filter_agree {A : Type} (f g : A → bool) (l : list A) :
  (∀ a, a ∈ l → f a = g a) → List.filter f l = List.filter g l.
Proof.
  induction l as [|a l IH]; intros H; simpl; [reflexivity |].
  rewrite (H a) by (apply elem_of_cons; left; reflexivity).
  rewrite IH; [reflexivity |]. intros b Hb. apply H, elem_of_cons. right. exact Hb.
Qed.

(** Where no endpoint of an edge bears the name of a member of
    [Object.prototype], the two readings of the filter and of the
    safeguard select the same edges, in the same order. *)
Lemma Proto_validEdges_plain (positions : gmap string Pos.t) (edges : list Edge.t) :
  (∀ edge, edge ∈ edges →
     (Edge.source edge ∉ objectPrototypeNames) ∧
     (Edge.target edge ∉ objectPrototypeNames)) →
  Proto.validEdges positions edges = validEdges positions edges ∧
  Proto.renderedEdges positions edges = renderedEdges positions edges.
Proof.
  intros Hplain.
  assert (Hvalid : Proto.validEdges positions edges = validEdges positions edges).
  { apply filter_agree. intros edge Hin. destruct (Hplain edge Hin).
    apply Proto_edgeIsValid_plain; assumption. }
  split; [exact Hvalid |].
  unfold Proto.renderedEdges, renderedEdges. rewrite Hvalid.
  destruct (validEdges positions edges) as [|e0 valid] eqn:E; [reflexivity |].
  apply filter_agree. intros edge Hin. f_equal.
  assert (Hin' : edge ∈ edges).
  { assert (H : edge ∈ validEdges positions edges) by (rewrite E; exact Hin).
    apply elem_of_list_filter in H. tauto. }
  destruct (Hplain edge Hin'). apply Proto_edgeIsSkipped_plain; assumption.
Qed.

(** An edge whose source is named like an inherited member and has no entry
    passes the filter and the safeguard as soon as its target has an entry
    off both axes. *)
Lemma Proto_edgeIsValid_inherited_source (positions : gmap string Pos.t)
    (edge : Edge.t) (targetPos : Pos.t) :
  positions !! Edge.source edge = None →
  Edge.source edge ∈ objectPrototypeNames →
  positions !! Edge.target edge = Some targetPos →
  Pos.x targetPos ≠ 0 → Pos.y targetPos ≠ 0 →
  Proto.edgeIsValid positions edge = true ∧ Proto.edgeIsSkipped positions edge = false.
Proof.
  intros Hs Hin Ht Hx Hy. unfold Proto.edgeIsValid, Proto.edgeIsSkipped. cbn zeta.
  rewrite (Proto_getProperty_inherited _ _ Hs Hin), (Proto_getProperty_entry _ _ _ Ht).
  simpl. apply is_zero_false in Hx, Hy. rewrite Hx, Hy. split; reflexivity.
Qed.

(** C3, the failing input.  The position object holds the single entry
    [b ↦ (100, 100)] and the edge list the single edge from [constructor]
    to [b].  The position object has no entry for [constructor], yet the
    edge is in [validEdges] and passes the safeguard, so a line is emitted
    for it: [nodePositions["constructor"]] is the inherited constructor
    function, which is truthy and whose [x] and [y] are not [0]. *)
Theorem validEdges_keeps_inherited_endpoint :
  Example.onlyB !! Edge.source Example.inheritedEdge = None ∧
  unplaced Example.onlyB (Edge.source Example.inheritedEdge) = true ∧
  Proto.validEdges Example.onlyB [Example.inheritedEdge] = [Example.inheritedEdge] ∧
  Proto.renderedEdges Example.onlyB [Example.inheritedEdge] = [Example.inheritedEdge].
Proof.
  assert (Hs : Example.onlyB !! Edge.source Example.inheritedEdge = None) by reflexivity.
  assert (Hin : Edge.source Example.inheritedEdge ∈ objectPrototypeNames).
  { simpl. apply elem_of_cons. left. reflexivity. }
  assert (Ht : Example.onlyB !! Edge.target Example.inheritedEdge = Some (Pos.mk 100 100))
    by reflexivity.
  destruct (Proto_edgeIsValid_inherited_source _ _ _ Hs Hin Ht) as [Hvalid Hskip];
    [simpl; lra | simpl; lra |].
  assert (Hedges : Proto.validEdges Example.onlyB [Example.inheritedEdge] =
                   [Example.inheritedEdge]).
  { unfold Proto.validEdges. simpl List.filter. rewrite Hvalid. reflexivity. }
  split; [exact Hs |]. split; [reflexivity |]. split; [exact Hedges |].
  unfold Proto.renderedEdges. rewrite Hedges. simpl List.filter.
  rewrite Hskip. reflexivity.
Qed.


(** ** Viewport *)

Lemma clamp_in_range (s : R) : scaleInRange (Rmin (Rmax s 0.1) 5).
Proof.
  unfold scaleInRange, Rmin, Rmax.
  destruct (Rle_dec s 0.1); destruct (Rle_dec _ 5); lra.
Qed.

Lemma handleWheel_scale (svgRect : DOMRect.t) (e : WheelEvent.t) (st : GraphState) :
  Transform.scale (transform (handleWheel (Some svgRect) e st)) =
  Rmin (Rmax (Transform.scale (transform st) + WheelEvent.deltaY e * -0.005) 0.1) 5.
Proof. reflexivity. Qed.

(** C1, as amended.  In exact arithmetic wheel zoom keeps the graph-space
    point under the pointer fixed: when the scale before is in [0.1, 5], the
    pointer's screen position [p] (on both axes) satisfies
    [(p - translate') / newScale = (p - translate) / scale] for every wheel
    delta, where [newScale] is the clamped scale. *)
Theorem handleWheel_fixed_point (svgRect : DOMRect.t) (e : WheelEvent.t) (st : GraphState) :
  scaleInRange (Transform.scale (transform st)) →
  let st' := handleWheel (Some svgRect) e st in
  let pointerX := WheelEvent.clientX e - DOMRect.left svgRect in
  let pointerY := WheelEvent.clientY e - DOMRect.top svgRect in
  Transform.scale (transform st') =
    Rmin (Rmax (Transform.scale (transform st) + WheelEvent.deltaY e * -0.005) 0.1) 5 ∧
  toGraph (Transform.x (transform st')) (Transform.scale (transform st')) pointerX =
    toGraph (Transform.x (transform st)) (Transform.scale (transform st)) pointerX ∧
  toGraph (Transform.y (transform st')) (Transform.scale (transform st')) pointerY =
    toGraph (Transform.y (transform st)) (Transform.scale (transform st)) pointerY.
Proof.
  intros Hrange st' pointerX pointerY.
  pose proof (clamp_in_range
    (Transform.scale (transform st) + WheelEvent.deltaY e * -0.005)) as Hnew.
  subst st'. unfold handleWheel, toGraph. simpl.
  set (newScale := Rmin _ 5) in *.
  unfold scaleInRange in *.
  split; [reflexivity |].
  clearbody newScale. subst pointerX pointerY.
  split; field; split; lra.
Qed.

(** C1 as worded, for the doubles of the code.  From the transform
    [(0, 0, 1)], whose scale is in range, one wheel event with
    [deltaY = -53] at the pointer [x = 119] gives the scale
    [1 + 53 * 0.005] and a translation under which the pointer shows the
    graph-space coordinate [119.00000000000001], where it showed [119]
    before: the two sides of the claimed equation differ. *)
Lemma handleWheel_fixed_point_fails_in_doubles :
  Double.inRange (Double.scale Double.start) = true ∧
  Double.toGraph (Double.x Double.start) (Double.scale Double.start) Double.pointer =
    Double.pointer ∧
  Double.toGraph (Double.x Double.zoomed) (Double.scale Double.zoomed) Double.pointer =
    Double.drifted ∧
  PrimFloat.eqb Double.drifted Double.pointer = false ∧
  Double.toGraph (Double.x Double.zoomed) (Double.scale Double.zoomed) Double.pointer ≠
    Double.toGraph (Double.x Double.start) (Double.scale Double.start) Double.pointer.
Proof.
  split; [vm_compute; reflexivity |].
  split; [vm_compute; reflexivity |].
  split; [vm_compute; reflexivity |].
  split; [vm_compute; reflexivity |].
  intros E. vm_compute in E.
  assert (E' : PrimFloat.eqb Double.drifted Double.pointer =
               PrimFloat.eqb Double.pointer Double.pointer).
  { f_equal. exact E. }
  vm_compute in E'. discriminate E'.
Qed.

Lemma handleZoomIn_range (st : GraphState) :
  scaleInRange (Transform.scale (transform st)) →
  scaleInRange (Transform.scale (transform (handleZoomIn st))).
Proof.
  unfold scaleInRange, handleZoomIn. simpl. intros H.
  unfold Rmin. destruct (Rle_dec _ 5); lra.
Qed.

Lemma handleZoomOut_range (st : GraphState) :
  scaleInRange (Transform.scale (transform st)) →
  scaleInRange (Transform.scale (transform (handleZoomOut st))).
Proof.
  unfold scaleInRange, handleZoomOut. simpl. intros H.
  unfold Rmax. destruct (Rle_dec _ 0.1); lra.
Qed.

Lemma handleWheel_range (svgRect : option DOMRect.t) (e : WheelEvent.t) (st : GraphState) :
  scaleInRange (Transform.scale (transform st)) →
  scaleInRange (Transform.scale (transform (handleWheel svgRect e st))).
Proof.
  intros H. destruct svgRect as [rect|]; [| exact H].
  rewrite handleWheel_scale. apply clamp_in_range.
Qed.

Lemma zoomStep_range (st : GraphState) (op : ZoomOp) :
  scaleInRange (Transform.scale (transform st)) →
  scaleInRange (Transform.scale (transform (zoomStep st op))).
Proof.
  intros H. destruct op as [| | svgRect e]; simpl.
  - apply handleZoomIn_range, H.
  - apply handleZoomOut_range, H.
  - apply handleWheel_range, H.
Qed.

Lemma iter_range (f : GraphState → GraphState) (n : nat) (st : GraphState) :
  (∀ s, scaleInRange (Transform.scale (transform s)) →
        scaleInRange (Transform.scale (transform (f s)))) →
  scaleInRange (Transform.scale (transform st)) →
  scaleInRange (Transform.scale (transform (Nat.iter n f st))).
Proof.
  intros Hf Hst. induction n as [|n IH]; simpl; [exact Hst | apply Hf, IH].
Qed.

(** C2.  From a scale in [0.1, 5], every sequence of zoom-in, zoom-out and
    wheel operations ends with a scale in [0.1, 5]; in particular any number
    of zoom-in calls (100 of them, say) stays at or below 5 and any number of
    zoom-out calls stays at or above 0.1. *)
Theorem zoom_scale_stays_in_range (ops : list ZoomOp) (n : nat) (st : GraphState) :
  scaleInRange (Transform.scale (transform st)) →
  scaleInRange (Transform.scale (transform (zoomRun ops st))) ∧
  Transform.scale (transform (Nat.iter 100 handleZoomIn st)) <= 5 ∧
  Transform.scale (transform (Nat.iter n handleZoomIn st)) <= 5 ∧
  0.1 <= Transform.scale (transform (Nat.iter n handleZoomOut st)).
Proof.
  intros Hst. split.
  - unfold zoomRun. revert st Hst.
    induction ops as [|op ops IH]; intros st Hst; simpl; [exact Hst |].
    apply IH, zoomStep_range, Hst.
  - pose proof (iter_range handleZoomIn 100 st handleZoomIn_range Hst) as H100.
    pose proof (iter_range handleZoomIn n st handleZoomIn_range Hst) as Hin.
    pose proof (iter_range handleZoomOut n st handleZoomOut_range Hst) as Hout.
    unfold scaleInRange in *. tauto.
Qed.

(** ** Highlight on edge click *)

Lemma of_list_singleton (k : string) : JSSet.of_list [k] = [k].
Proof.
  unfold JSSet.of_list. simpl. apply (JSSetFacts.add_fresh k JSSet.empty).
  apply not_elem_of_nil.
Qed.

(** C7.  After a click on the edge [(X, Y)] the highlighted nodes are
    exactly [X] and [Y] and the highlighted edge keys are exactly ["X-Y"],
    whatever was highlighted before: two states with different highlights
    end with the same one, so nothing of the earlier highlight survives. *)
Theorem handleEdgeClick_resets_highlight (edge : Edge.t) (st st0 : GraphState) :
  let after := highlightedPath (handleEdgeClick edge st) in
  (∀ k, k ∈ HighlightedPath.nodes after ↔ k = Edge.source edge ∨ k = Edge.target edge) ∧
  HighlightedPath.edges after = [Edge.source edge +:+ "-" +:+ Edge.target edge] ∧
  after = highlightedPath (handleEdgeClick edge st0).
Proof.
  simpl. split; [| split].
  - intros k. rewrite JSSetFacts.elem_of_of_list, !elem_of_cons, elem_of_nil. tauto.
  - apply of_list_singleton.
  - reflexivity.
Qed.

(** A click on the edge [A-P] while the neighbourhood of [A] is highlighted
    leaves only that edge and its two ends. *)
Example edge_click_after_node_click :
  let st := handleNodeClick Example.family (Example.node "A")
              (Example.withPositions Example.allPlaced) in
  highlightedPath st = HighlightedPath.mk ["A"; "P"; "Q"] ["A-P"; "A-Q"] ∧
  highlightedPath (handleEdgeClick (Example.edge "A" "P") st) =
    HighlightedPath.mk ["A"; "P"] ["A-P"].
Proof. split; reflexivity. Qed.

(** ** Display name *)

(** C9 fails as stated: a node without a [name] but with a [title] is
    shown under its title, not under a label made from its id. *)
Lemma displayName_absent_name_not_id_label :
  ¬ (∀ node : Node.t,
       Node.name node = None →
       getNodeDisplayName node = "Node " +:+ Node.id node).
Proof.
  intros H.
  specialize (H (Node.mk "n1" None (Some "Main") None None None) eq_refl).
  vm_compute in H. discriminate H.
Qed.

(** C9, amended.  For a node whose [name] is absent, the display name is
    the node's [title] when that is present and not empty, and the label
    ["Node <id>"] otherwise. *)
Theorem displayName_absent_name (node : Node.t) :
  Node.name node = None →
  getNodeDisplayName node =
    match Node.title node with
    | Some title => if bool_decide (title = "") then "Node " +:+ Node.id node else title
    | None => "Node " +:+ Node.id node
    end.
Proof.
  intros Hname. unfold getNodeDisplayName, js_or. rewrite Hname. reflexivity.
Qed.

(** ** Layout selection *)

Lemma layoutEffect_positions
    (createSpiralLayout createDonutLayout createCircularLayout createForceLayout :
       list Node.t → Pos.t → Size.t → gmap string Pos.t)
    (getInitialZoomScale : nat → R) (processedData : GraphData.t)
    (autoLayout : LayoutKind) (transformGroupMounted : bool) (st : GraphState) :
  GraphData.nodes processedData ≠ [] →
  nodePositions
    (layoutEffect createSpiralLayout createDonutLayout createCircularLayout
       createForceLayout getInitialZoomScale processedData autoLayout
       transformGroupMounted st) =
  layoutPositions createSpiralLayout createDonutLayout createCircularLayout
    createForceLayout processedData
    (actualLayout (length (GraphData.nodes processedData)) autoLayout)
    (Pos.mk (Size.width (viewportSize st) / 2) (Size.height (viewportSize st) / 2))
    (Size.mk (Size.width (viewportSize st) * 0.6) (Size.height (viewportSize st) * 0.6)).
Proof.
  intros Hne. unfold layoutEffect.
  destruct (GraphData.nodes processedData) as [|node rest]; [congruence |].
  destruct transformGroupMounted; reflexivity.
Qed.

(** C4.  With the requested kind [circular], the layout that is computed
    is the one of [createDonutLayout] when there are more than 50 nodes and
    the one of [createCircularLayout] when there are at most 50, whatever
    the four layout functions are; the effect stores that layout whenever
    the node list is not empty (on an empty list it returns before any
    layout is computed). *)
Theorem circular_becomes_donut_above_50
    (createSpiralLayout createDonutLayout createCircularLayout createForceLayout :
       list Node.t → Pos.t → Size.t → gmap string Pos.t)
    (getInitialZoomScale : nat → R) (processedData : GraphData.t)
    (transformGroupMounted : bool) (st : GraphState) :
  let nodes := GraphData.nodes processedData in
  let n := length nodes in
  let center :=
    Pos.mk (Size.width (viewportSize st) / 2) (Size.height (viewportSize st) / 2) in
  let available :=
    Size.mk (Size.width (viewportSize st) * 0.6) (Size.height (viewportSize st) * 0.6) in
  let computed :=
    layoutPositions createSpiralLayout createDonutLayout createCircularLayout
      createForceLayout processedData (actualLayout n circular) center available in
  ((50 < n)%nat →
     actualLayout n circular = donut ∧
     computed = createDonutLayout nodes center available) ∧
  ((n <= 50)%nat →
     actualLayout n circular = circular ∧
     computed = createCircularLayout nodes center available) ∧
  (nodes ≠ [] →
     nodePositions
       (layoutEffect createSpiralLayout createDonutLayout createCircularLayout
          createForceLayout getInitialZoomScale processedData circular
          transformGroupMounted st) = computed).
Proof.
  intros nodes n center available computed. subst computed.
  split; [| split].
  - intros Hn. apply Nat.ltb_lt in Hn.
    unfold actualLayout, layoutPositions. rewrite Hn. split; reflexivity.
  - intros Hn. apply Nat.ltb_ge in Hn.
    unfold actualLayout, layoutPositions. rewrite Hn. split; reflexivity.
  - intros Hne. apply layoutEffect_positions, Hne.
Qed.

(** ** Reset on data change *)

(** The loop over [Object.entries(prevPositions)], on any list of entries
    with pairwise different keys. *)
Lemma keep_current_lookup (ids : JSSet.t) (entries : list (string * Pos.t))
    (acc : gmap string Pos.t) (k : string) :
  NoDup entries.*1 →
  foldl (λ acc '(id, pos), if JSSet.has ids id then <[id := pos]> acc else acc)
    acc entries !! k =
  match (if JSSet.has ids k
         then (list_to_map entries : gmap string Pos.t) !! k else None) with
  | Some pos => Some pos
  | None => acc !! k
  end.
Proof.
  revert acc. induction entries as [|[id pos] entries IH]; intros acc Hdup.
  - simpl. rewrite lookup_empty. destruct (JSSet.has ids k); reflexivity.
  - rewrite fmap_cons in Hdup. apply NoDup_cons in Hdup as [Hfresh Hdup].
    cbn [foldl]. rewrite (IH _ Hdup). cbn [list_to_map foldr uncurry fst snd].
    destruct (decide (id = k)) as [-> | Hne].
    + rewrite lookup_insert_eq.
      rewrite (not_elem_of_list_to_map_1 (M := gmap string) _ _ Hfresh).
      destruct (JSSet.has ids k).
      * rewrite lookup_insert_eq. reflexivity.
      * reflexivity.
    + rewrite (lookup_insert_ne _ id k) by exact Hne.
      destruct (JSSet.has ids k) eqn:Hk;
        destruct (JSSet.has ids id);
        rewrite ?lookup_insert_ne by exact Hne; reflexivity.
Qed.

Lemma resetEffect_lookup (processedData : GraphData.t) (st : GraphState) (k : string) :
  nodePositions (resetEffect processedData st) !! k =
  if bool_decide (k ∈ Node.id <$> GraphData.nodes processedData)
  then nodePositions st !! k else None.
Proof.
  unfold resetEffect. simpl.
  rewrite keep_current_lookup by apply NoDup_fst_map_to_list.
  rewrite list_to_map_to_list, lookup_empty.
  unfold JSSet.has.
  rewrite (bool_decide_ext _ _ (JSSetFacts.elem_of_of_list _ k)).
  destruct (bool_decide _); [destruct (nodePositions st !! k) |]; reflexivity.
Qed.

(** C8.  The effect that runs when the node list changes clears the
    highlight set and the selection and keeps a position exactly for the ids
    of the new node list, so afterwards no entry of the position map belongs
    to an id that is not in the node list; the same holds when the layout
    effect has run just before it on the same change. *)
Theorem resetEffect_prunes_positions
    (createSpiralLayout createDonutLayout createCircularLayout createForceLayout :
       list Node.t → Pos.t → Size.t → gmap string Pos.t)
    (getInitialZoomScale : nat → R) (autoLayout : LayoutKind)
    (transformGroupMounted : bool) (processedData : GraphData.t) (st : GraphState) :
  let ids := Node.id <$> GraphData.nodes processedData in
  let after := resetEffect processedData st in
  let afterBoth :=
    nodesChanged createSpiralLayout createDonutLayout createCircularLayout
      createForceLayout getInitialZoomScale processedData autoLayout
      transformGroupMounted st in
  highlightedPath after = HighlightedPath.empty ∧
  selectedNode after = None ∧
  (∀ k, nodePositions after !! k =
        if bool_decide (k ∈ ids) then nodePositions st !! k else None) ∧
  (∀ k, is_Some (nodePositions after !! k) → k ∈ ids) ∧
  highlightedPath afterBoth = HighlightedPath.empty ∧
  selectedNode afterBoth = None ∧
  (∀ k, is_Some (nodePositions afterBoth !! k) → k ∈ ids).
Proof.
  intros ids after afterBoth.
  assert (Hdom : ∀ s k, is_Some (nodePositions (resetEffect processedData s) !! k) → k ∈ ids).
  { intros s k. rewrite resetEffect_lookup. fold ids.
    destruct (bool_decide (k ∈ ids)) eqn:Hk.
    - intros _. apply bool_decide_eq_true in Hk. exact Hk.
    - intros [? ?]. discriminate. }
  repeat split.
  - intros k. apply resetEffect_lookup.
  - apply Hdom.
  - apply Hdom.
Qed.

(** ** Expansion *)

Section ExpansionFacts.
Variable processedData : GraphData.t.
Variable node : Node.t.

Lemma linked_empty : linked node (mkDiscovered JSSet.empty JSSet.empty JSSet.empty).
Proof.
  split; [apply NoDup_nil_2 |]. intros k. simpl. unfold JSSet.empty.
  rewrite elem_of_nil. split; [tauto |]. intros (c & Hc & _).
  apply elem_of_nil in Hc. exact Hc.
Qed.

Lemma linked_addChild (c : string) (d : Discovered) :
  linked node d → linked node (addChild c (Node.id node +:+ "-" +:+ c) d).
Proof.
  intros [Hdup Hkeys]. split; simpl.
  - apply JSSetFacts.NoDup_add, Hdup.
  - intros k. rewrite JSSetFacts.elem_of_add, Hkeys. split.
    + intros [-> | (c' & Hc' & ->)].
      * exists c. rewrite JSSetFacts.elem_of_add. auto.
      * exists c'. rewrite JSSetFacts.elem_of_add. auto.
    + intros (c' & Hc' & ->). apply JSSetFacts.elem_of_add in Hc' as [-> | Hc'].
      * left. reflexivity.
      * right. exists c'. auto.
Qed.

Lemma foldl_preserves {A B : Type} (P : A → Prop) (f : A → B → A) (l : list B) (a : A) :
  (∀ a b, P a → P (f a b)) → P a → P (foldl f a l).
Proof.
  intros Hf. revert a. induction l as [|b l IH]; intros a Ha; simpl; [exact Ha |].
  apply IH, Hf, Ha.
Qed.

Lemma linked_discoverEdges (d : Discovered) :
  linked node d → linked node (discoverEdges processedData node d).
Proof.
  unfold discoverEdges. apply foldl_preserves. intros a edge Ha.
  destruct (bool_decide (Edge.source edge = Node.id node)) eqn:E; [| exact Ha].
  apply bool_decide_eq_true in E. unfold Edge.key. rewrite E.
  apply linked_addChild, Ha.
Qed.

Lemma linked_discoverDependencies (deps : list string) (d : Discovered) :
  linked node d → linked node (discoverDependencies processedData node deps d).
Proof.
  unfold discoverDependencies. apply foldl_preserves. intros a dep Ha.
  destruct (List.find _ _); [apply linked_addChild |]; exact Ha.
Qed.

Lemma linked_discoverImports (imps : list Import) (d : Discovered) :
  linked node d → linked node (discoverImports processedData node imps d).
Proof.
  unfold discoverImports. apply foldl_preserves. intros a imp Ha.
  destruct (importNameOf imp) as [importName|]; [| exact Ha].
  destruct (bool_decide (importName = "")); [exact Ha |].
  destruct (List.find _ _); [apply linked_addChild |]; exact Ha.
Qed.

Lemma linked_discover : linked node (discover processedData node).
Proof.
  unfold discover.
  pose proof (linked_discoverEdges _ linked_empty) as H0.
  destruct (Node.metadata node) as [metadata|]; [| exact H0].
  assert (H1 : linked node
    match Metadata.outgoingDependencies metadata with
    | Some deps =>
        discoverDependencies processedData node deps
          (discoverEdges processedData node
             (mkDiscovered JSSet.empty JSSet.empty JSSet.empty))
    | None =>
        discoverEdges processedData node
          (mkDiscovered JSSet.empty JSSet.empty JSSet.empty)
    end).
  { destruct (Metadata.outgoingDependencies metadata);
      [apply linked_discoverDependencies |]; exact H0. }
  destruct (Metadata.imports metadata); [apply linked_discoverImports |]; exact H1.
Qed.

(** The ids to reveal are the discovered ids that are not placed. *)
Lemma elem_of_reveal_acc (positions : gmap string Pos.t) (ids acc : list string)
    (k : string) :
  k ∈ foldl (λ acc nodeId,
               if unplaced positions nodeId then JSSet.add nodeId acc else acc)
            acc ids ↔
  k ∈ acc ∨ (k ∈ ids ∧ unplaced positions k = true).
Proof.
  revert acc. induction ids as [|a ids IH]; intros acc; simpl.
  - rewrite elem_of_nil. tauto.
  - rewrite IH, elem_of_cons. destruct (unplaced positions a) eqn:Ha.
    + rewrite JSSetFacts.elem_of_add. split.
      * intros [[-> | H] | [H1 H2]]; auto.
      * intros [H | [[-> | H1] H2]]; auto.
    + split.
      * intros [H | [H1 H2]]; auto.
      * intros [H | [[-> | H1] H2]]; [auto | congruence | auto].
Qed.

Lemma elem_of_nodesToReveal (positions : gmap string Pos.t) (ids : JSSet.t) (k : string) :
  k ∈ nodesToReveal positions ids ↔ k ∈ ids ∧ unplaced positions k = true.
Proof.
  unfold nodesToReveal, JSSet.to_array. rewrite elem_of_reveal_acc.
  unfold JSSet.empty. rewrite elem_of_nil. tauto.
Qed.

Lemma NoDup_nodesToReveal (positions : gmap string Pos.t) (ids : JSSet.t) :
  NoDup (nodesToReveal positions ids).
Proof.
  unfold nodesToReveal.
  apply (foldl_preserves (λ acc : JSSet.t, NoDup acc)); [| apply NoDup_nil_2].
  intros acc nodeId Hacc.
  destruct (unplaced positions nodeId); [apply JSSetFacts.NoDup_add |]; exact Hacc.
Qed.

(** The placement loop writes the ids of the array and nothing else. *)
Lemma place_lookup_other (g : nat → Pos.t) (arr : list string) (start : nat)
    (m : gmap string Pos.t) (k : string) :
  k ∉ arr →
  foldl (λ acc '(index, id), <[id := g index]> acc) m
    (zip (seq start (length arr)) arr) !! k = m !! k.
Proof.
  revert start m. induction arr as [|a arr IH]; intros start m Hk; simpl.
  - reflexivity.
  - apply not_elem_of_cons in Hk as [Hne Hk].
    rewrite IH by exact Hk. apply lookup_insert_ne. congruence.
Qed.

Lemma place_lookup_index (g : nat → Pos.t) (arr : list string) (start : nat)
    (m : gmap string Pos.t) (i : nat) (k : string) :
  NoDup arr →
  arr !! i = Some k →
  foldl (λ acc '(index, id), <[id := g index]> acc) m
    (zip (seq start (length arr)) arr) !! k = Some (g (start + i)%nat).
Proof.
  revert start m i. induction arr as [|a arr IH]; intros start m i Hdup Hi.
  - discriminate.
  - apply NoDup_cons in Hdup as [Ha Hdup]. simpl. destruct i as [|i]; simpl in Hi.
    + injection Hi as ->. rewrite place_lookup_other by exact Ha.
      rewrite lookup_insert_eq, Nat.add_0_r. reflexivity.
    + rewrite (IH (S start) _ i Hdup Hi). f_equal. f_equal. lia.
Qed.
End ExpansionFacts.

Lemma handleExpandNode_positions (processedData : GraphData.t) (node : Node.t)
    (st : GraphState) :
  nodePositions (handleExpandNode processedData node st) =
  let reveal := nodesToReveal (nodePositions st) (newNodeIds (discover processedData node)) in
  let nodePos := default Pos.origin (nodePositions st !! Node.id node) in
  if (0 <? JSSet.size reveal)%nat && (non_zero (Pos.x nodePos) || non_zero (Pos.y nodePos))
  then placeAll nodePos (JSSet.to_array reveal) (nodePositions st)
  else nodePositions st.
Proof.
  unfold handleExpandNode. cbn zeta. simpl nodePositions.
  destruct (0 <? _)%nat; [| reflexivity].
  destruct (non_zero _ || non_zero _); reflexivity.
Qed.

Lemma handleExpandNode_highlight (processedData : GraphData.t) (node : Node.t)
    (st : GraphState) :
  highlightedPath (handleExpandNode processedData node st) =
  HighlightedPath.mk
    (JSSet.of_list (Node.id node :: newNodeIds (discover processedData node)))
    (childEdges (discover processedData node)).
Proof. reflexivity. Qed.

Lemma not_origin_coordinate (p : Pos.t) :
  p ≠ Pos.origin → non_zero (Pos.x p) || non_zero (Pos.y p) = true.
Proof.
  intros Hp. apply at_origin_false in Hp. unfold Pos.at_origin in Hp.
  unfold non_zero. destruct (is_zero (Pos.x p)), (is_zero (Pos.y p)); simpl in *; congruence.
Qed.




(** *** Expansion with the lookup through the prototype chain *)

(** The reveal test of [handleExpandNode] holds for an id with an entry at
    the origin, and for an id without entry that is not the name of an
    inherited member. *)
Lemma Proto_unplaced_true (positions : gmap string Pos.t) (nodeId : string) :
  Proto.unplaced positions nodeId = true ↔
  positions !! nodeId = Some Pos.origin ∨
  (positions !! nodeId = None ∧ nodeId ∉ objectPrototypeNames).
Proof.
  unfold Proto.unplaced, Proto.getProperty. cbn zeta.
  destruct (positions !! nodeId) as [p|].
  - change (negb (Proto.truthy (Proto.Own p)) ||
            Proto.coordinateIsZero Pos.x (Proto.Own p) &&
            Proto.coordinateIsZero Pos.y (Proto.Own p))
      with (Pos.at_origin p).
    rewrite at_origin_true. split.
    + intros ->. left. reflexivity.
    + intros [H | [H _]]; [injection H as ->; reflexivity | discriminate].
  - destruct (bool_decide (nodeId ∈ objectPrototypeNames)) eqn:E; simpl.
    + apply bool_decide_eq_true in E. split; [discriminate |].
      intros [H | [_ H]]; [discriminate | contradiction].
    + apply bool_decide_eq_false in E. split; [| reflexivity].
      intros _. right. split; [reflexivity | exact E].
Qed.

Lemma elem_of_foldl_add_if (test : string → bool) (ids acc : list string) (k : string) :
  k ∈ foldl (λ acc nodeId, if test nodeId then JSSet.add nodeId acc else acc) acc ids ↔
  k ∈ acc ∨ (k ∈ ids ∧ test k = true).
Proof.
  revert acc. induction ids as [|a ids IH]; intros acc; simpl.
  - rewrite elem_of_nil. tauto.
  - rewrite IH, elem_of_cons. destruct (test a) eqn:Ha.
    + rewrite JSSetFacts.elem_of_add. split.
      * intros [[-> | H] | [H1 H2]]; auto.
      * intros [H | [[-> | H1] H2]]; auto.
    + split.
      * intros [H | [H1 H2]]; auto.
      * intros [H | [[-> | H1] H2]]; [auto | congruence | auto].
Qed.

Lemma Proto_elem_of_nodesToReveal (positions : gmap string Pos.t) (ids : JSSet.t)
    (k : string) :
  k ∈ Proto.nodesToReveal positions ids ↔ k ∈ ids ∧ Proto.unplaced positions k = true.
Proof.
  unfold Proto.nodesToReveal, JSSet.to_array. rewrite elem_of_foldl_add_if.
  unfold JSSet.empty. rewrite elem_of_nil. tauto.
Qed.

Lemma Proto_NoDup_nodesToReveal (positions : gmap string Pos.t) (ids : JSSet.t) :
  NoDup (Proto.nodesToReveal positions ids).
Proof.
  unfold Proto.nodesToReveal.
  apply (foldl_preserves (λ acc : JSSet.t, NoDup acc)); [| apply NoDup_nil_2].
  intros acc nodeId Hacc.
  destruct (Proto.unplaced positions nodeId); [apply JSSetFacts.NoDup_add |]; exact Hacc.
Qed.

Lemma foldl_agree {A B : Type} (f g : A → B → A) (l : list B) (a : A) :
  (∀ a b, b ∈ l → f a b = g a b) → foldl f a l = foldl g a l.
Proof.
  revert a. induction l as [|b l IH]; intros a H; simpl; [reflexivity |].
  rewrite (H a b) by (apply elem_of_cons; left; reflexivity).
  apply IH. intros a' b' Hb'. apply H, elem_of_cons. right. exact Hb'.
Qed.

Lemma Proto_nodesToReveal_plain (positions : gmap string Pos.t) (ids : JSSet.t) :
  (∀ c, c ∈ ids → c ∉ objectPrototypeNames) →
  Proto.nodesToReveal positions ids = nodesToReveal positions ids.
Proof.
  intros Hplain. unfold Proto.nodesToReveal, nodesToReveal, JSSet.to_array.
  apply foldl_agree. intros acc c Hc.
  rewrite (Proto_unplaced_plain positions c (Hplain c Hc)). reflexivity.
Qed.

(** The state after an expansion whose anchor has an entry. *)
Lemma Proto_handleExpandNode_entry (processedData : GraphData.t) (node : Node.t)
    (st : GraphState) (nodePos : Pos.t) :
  nodePositions st !! Node.id node = Some nodePos →
  Proto.handleExpandNode processedData node st =
  Some (mkGraphState
          (let reveal :=
             Proto.nodesToReveal (nodePositions st)
               (newNodeIds (discover processedData node)) in
           if (0 <? JSSet.size reveal)%nat &&
              (non_zero (Pos.x nodePos) || non_zero (Pos.y nodePos))
           then placeAll nodePos (JSSet.to_array reveal) (nodePositions st)
           else nodePositions st)
          (Some node)
          (HighlightedPath.mk
             (JSSet.of_list (Node.id node :: newNodeIds (discover processedData node)))
             (childEdges (discover processedData node)))
          (containerSize st) (transform st) (isPanning st) (panStart st)
          (viewportSize st) (Some (Node.id node))).
Proof.
  intros Hanchor. unfold Proto.handleExpandNode. cbn zeta. simpl nodePositions.
  rewrite (Proto_getProperty_entry _ _ _ Hanchor).
  destruct (0 <? _)%nat; [| reflexivity].
  destruct (non_zero _ || non_zero _); reflexivity.
Qed.

(** The state after an expansion whose anchor has no entry and is not
    named like an inherited member. *)
Lemma Proto_handleExpandNode_no_entry (processedData : GraphData.t) (node : Node.t)
    (st : GraphState) :
  nodePositions st !! Node.id node = None →
  Node.id node ∉ objectPrototypeNames →
  Proto.handleExpandNode processedData node st =
  Some (mkGraphState (nodePositions st) (Some node)
          (HighlightedPath.mk
             (JSSet.of_list (Node.id node :: newNodeIds (discover processedData node)))
             (childEdges (discover processedData node)))
          (containerSize st) (transform st) (isPanning st) (panStart st)
          (viewportSize st) (Some (Node.id node))).
Proof.
  intros Hanchor Hplain. unfold Proto.handleExpandNode. cbn zeta. simpl nodePositions.
  rewrite (Proto_getProperty_undefined _ _ Hanchor Hplain).
  destruct (0 <? _)%nat; reflexivity.
Qed.

(** Where neither the anchor nor a discovered id bears the name of a member
    of [Object.prototype], the two readings of [handleExpandNode] agree. *)
Lemma Proto_handleExpandNode_plain (processedData : GraphData.t) (node : Node.t)
    (st : GraphState) :
  Node.id node ∉ objectPrototypeNames →
  (∀ c, c ∈ newNodeIds (discover processedData node) → c ∉ objectPrototypeNames) →
  Proto.handleExpandNode processedData node st =
  Some (handleExpandNode processedData node st).
Proof.
  intros Hnode Hids. unfold Proto.handleExpandNode, handleExpandNode. cbn zeta.
  simpl nodePositions. rewrite (Proto_nodesToReveal_plain _ _ Hids).
  rewrite (Proto_getProperty_plain _ _ Hnode).
  destruct (0 <? _)%nat; [| reflexivity].
  destruct (nodePositions st !! Node.id node) as [nodePos|]; simpl default.
  - destruct (non_zero _ || non_zero _); reflexivity.
  - replace (non_zero (Pos.x Pos.origin) || non_zero (Pos.y Pos.origin)) with false;
      [reflexivity |].
    symmetry. apply orb_false_iff. split; apply non_zero_false; reflexivity.
Qed.



Lemma nodesToReveal_all_placed (positions : gmap string Pos.t) (ids : JSSet.t) :
  (∀ c, c ∈ ids → placed positions c) → nodesToReveal positions ids = [].
Proof.
  intros Hall. destruct (nodesToReveal positions ids) as [|k rest] eqn:E; [reflexivity |].
  assert (Hk : k ∈ nodesToReveal positions ids) by (rewrite E; apply elem_of_cons; left; reflexivity).
  apply elem_of_nodesToReveal in Hk as [Hin Hun].
  apply Hall, unplaced_false in Hin. congruence.
Qed.

(** The whole state after an expansion that has nothing to reveal. *)
Lemma handleExpandNode_nothing_to_reveal (processedData : GraphData.t) (node : Node.t)
    (st : GraphState) :
  nodesToReveal (nodePositions st) (newNodeIds (discover processedData node)) = [] →
  handleExpandNode processedData node st =
  mkGraphState (nodePositions st) (Some node)
    (HighlightedPath.mk
       (JSSet.of_list (Node.id node :: newNodeIds (discover processedData node)))
       (childEdges (discover processedData node)))
    (containerSize st) (transform st) (isPanning st) (panStart st) (viewportSize st)
    (Some (Node.id node)).
Proof.
  intros Hnone. unfold handleExpandNode. cbn zeta. simpl nodePositions.
  rewrite Hnone. reflexivity.
Qed.

(** C6.  [handleExpandNode] leaves the position of every node that has a
    position other than the origin as it is.  When every discovered id
    already has such a position, the position map is not changed at all and
    a second expansion changes nothing any more; in every case the highlight
    becomes the anchor with all discovered ids, and the keys of the edges
    from the anchor to them. *)
Theorem handleExpandNode_additive (processedData : GraphData.t) (node : Node.t)
    (st : GraphState) :
  let after := handleExpandNode processedData node st in
  let discovered := newNodeIds (discover processedData node) in
  (∀ k p, nodePositions st !! k = Some p → p ≠ Pos.origin →
          nodePositions after !! k = Some p) ∧
  (∀ k, k ∈ HighlightedPath.nodes (highlightedPath after) ↔
        k = Node.id node ∨ k ∈ discovered) ∧
  (∀ k, k ∈ HighlightedPath.edges (highlightedPath after) ↔
        ∃ c, c ∈ discovered ∧ k = Node.id node +:+ "-" +:+ c) ∧
  ((∀ c, c ∈ discovered → placed (nodePositions st) c) →
     nodePositions after = nodePositions st ∧
     handleExpandNode processedData node after = after).
Proof.
  intros after discovered. subst after discovered.
  split; [| split; [| split]].
  - intros k p Hk Hp. rewrite handleExpandNode_positions. cbn zeta.
    destruct (_ && _); [| exact Hk].
    unfold placeAll, JSSet.to_array. rewrite place_lookup_other; [exact Hk |].
    intros Hin. apply elem_of_nodesToReveal in Hin as [_ Hun].
    assert (Hpl : placed (nodePositions st) k) by (exists p; auto).
    apply unplaced_false in Hpl. congruence.
  - intros k. rewrite handleExpandNode_highlight. simpl.
    rewrite JSSetFacts.elem_of_of_list, elem_of_cons. reflexivity.
  - intros k. rewrite handleExpandNode_highlight. simpl.
    apply (linked_discover processedData node).
  - intros Hall.
    pose proof (nodesToReveal_all_placed _ _ Hall) as Hnone.
    rewrite (handleExpandNode_nothing_to_reveal _ _ st Hnone).
    split; [reflexivity |].
    rewrite handleExpandNode_nothing_to_reveal by exact Hnone. reflexivity.
Qed.

(** * Further properties *)

(** ** Neighbourhood highlights *)

Lemma elem_of_add_empty (k x : string) : x ∈ JSSet.add k JSSet.empty ↔ x = k.
Proof.
  rewrite JSSetFacts.elem_of_add. unfold JSSet.empty. rewrite elem_of_nil. tauto.
Qed.

Section HighlightFacts.
Variable processedData : GraphData.t.

Lemma connected_fold (nodeId : string) (l : list Edge.t) (acc : HighlightedPath.t) :
  let result :=
    foldl
      (λ acc edge,
         if bool_decide (Edge.source edge = nodeId) || bool_decide (Edge.target edge = nodeId)
         then HighlightedPath.mk
                (JSSet.add (Edge.target edge)
                   (JSSet.add (Edge.source edge) (HighlightedPath.nodes acc)))
                (JSSet.add (Edge.key edge) (HighlightedPath.edges acc))
         else acc)
      acc l in
  (∀ k, k ∈ HighlightedPath.nodes result ↔
        k ∈ HighlightedPath.nodes acc ∨
        ∃ edge, edge ∈ l ∧ touches nodeId edge ∧
                (k = Edge.source edge ∨ k = Edge.target edge)) ∧
  (∀ k, k ∈ HighlightedPath.edges result ↔
        k ∈ HighlightedPath.edges acc ∨
        ∃ edge, edge ∈ l ∧ touches nodeId edge ∧ k = Edge.key edge).
Proof.
  revert acc. induction l as [|e l IH]; intros acc; cbn zeta.
  - simpl. split; intros k; (split; [auto |]);
      intros [H | (edge & Hin & _)]; auto; apply elem_of_nil in Hin; contradiction.
  - cbn [foldl]. destruct (IH
      (if bool_decide (Edge.source e = nodeId) || bool_decide (Edge.target e = nodeId)
       then HighlightedPath.mk
              (JSSet.add (Edge.target e)
                 (JSSet.add (Edge.source e) (HighlightedPath.nodes acc)))
              (JSSet.add (Edge.key e) (HighlightedPath.edges acc))
       else acc)) as [IHn IHe].
    cbn zeta in IHn, IHe.
    assert (Hdec : bool_decide (Edge.source e = nodeId) || bool_decide (Edge.target e = nodeId)
                   = true ↔ touches nodeId e).
    { rewrite orb_true_iff, !bool_decide_eq_true. reflexivity. }
    destruct (bool_decide (Edge.source e = nodeId) || bool_decide (Edge.target e = nodeId))
      eqn:E.
    + apply proj1 in Hdec. specialize (Hdec eq_refl). split; intros k.
      * rewrite IHn. simpl. rewrite !JSSetFacts.elem_of_add. split.
        -- intros [[-> | [-> | H]] | (edge & Hin & Ht & Hk)].
           ++ right. exists e. split; [apply elem_of_cons; auto | auto].
           ++ right. exists e. split; [apply elem_of_cons; auto | auto].
           ++ left. exact H.
           ++ right. exists edge. split; [apply elem_of_cons; auto | auto].
        -- intros [H | (edge & Hin & Ht & Hk)]; [auto |].
           apply elem_of_cons in Hin as [-> | Hin].
           ++ left. destruct Hk; auto.
           ++ right. exists edge. auto.
      * rewrite IHe. simpl. rewrite JSSetFacts.elem_of_add. split.
        -- intros [[-> | H] | (edge & Hin & Ht & Hk)].
           ++ right. exists e. split; [apply elem_of_cons; auto | auto].
           ++ left. exact H.
           ++ right. exists edge. split; [apply elem_of_cons; auto | auto].
        -- intros [H | (edge & Hin & Ht & Hk)]; [auto |].
           apply elem_of_cons in Hin as [-> | Hin].
           ++ left. auto.
           ++ right. exists edge. auto.
    + assert (Hno : ¬ touches nodeId e).
      { intros Ht. apply Hdec in Ht. discriminate. }
      split; intros k.
      * rewrite IHn. split.
        -- intros [H | (edge & Hin & Ht & Hk)]; [auto |].
           right. exists edge. split; [apply elem_of_cons; auto | auto].
        -- intros [H | (edge & Hin & Ht & Hk)]; [auto |].
           apply elem_of_cons in Hin as [-> | Hin]; [contradiction |].
           right. exists edge. auto.
      * rewrite IHe. split.
        -- intros [H | (edge & Hin & Ht & Hk)]; [auto |].
           right. exists edge. split; [apply elem_of_cons; auto | auto].
        -- intros [H | (edge & Hin & Ht & Hk)]; [auto |].
           apply elem_of_cons in Hin as [-> | Hin]; [contradiction |].
           right. exists edge. auto.
Qed.

Lemma findConnectedNodes_spec (nodeId : string) :
  (∀ k, k ∈ HighlightedPath.nodes (findConnectedNodes processedData nodeId) ↔
        k = nodeId ∨
        ∃ edge, edge ∈ GraphData.edges processedData ∧ touches nodeId edge ∧
                (k = Edge.source edge ∨ k = Edge.target edge)) ∧
  (∀ k, k ∈ HighlightedPath.edges (findConnectedNodes processedData nodeId) ↔
        ∃ edge, edge ∈ GraphData.edges processedData ∧ touches nodeId edge ∧
                k = Edge.key edge).
Proof.
  destruct (connected_fold nodeId (GraphData.edges processedData)
              (HighlightedPath.mk (JSSet.add nodeId JSSet.empty) JSSet.empty))
    as [Hn He].
  cbn zeta in Hn, He. split; intros k.
  - unfold findConnectedNodes. rewrite Hn. simpl. rewrite elem_of_add_empty.
    reflexivity.
  - unfold findConnectedNodes. rewrite He. simpl. unfold JSSet.empty.
    rewrite elem_of_nil. tauto.
Qed.

(** X1.  A click on a node selects it and highlights the node itself, both
    ends of every edge that touches it, and the keys of exactly those
    edges. *)
Theorem handleNodeClick_highlights_neighbourhood (node : Node.t) (st : GraphState) :
  let after := handleNodeClick processedData node st in
  selectedNode after = Some node ∧
  (∀ k, k ∈ HighlightedPath.nodes (highlightedPath after) ↔
        k = Node.id node ∨
        ∃ edge, edge ∈ GraphData.edges processedData ∧ touches (Node.id node) edge ∧
                (k = Edge.source edge ∨ k = Edge.target edge)) ∧
  (∀ k, k ∈ HighlightedPath.edges (highlightedPath after) ↔
        ∃ edge, edge ∈ GraphData.edges processedData ∧ touches (Node.id node) edge ∧
                k = Edge.key edge).
Proof.
  cbn zeta. split; [reflexivity |]. apply findConnectedNodes_spec.
Qed.

(** The loop shared by [handleShowDependencies], [handleShowDependents] and
    [handleGoToParent]: two sets filled from the edges that pass a test. *)
Lemma collect_fold (test : Edge.t → bool) (f g : Edge.t → string) (l : list Edge.t)
    (a b : JSSet.t) :
  let result :=
    foldl (λ '(a, b) edge,
             if test edge then (JSSet.add (f edge) a, JSSet.add (g edge) b) else (a, b))
          (a, b) l in
  (∀ k, k ∈ result.1 ↔ k ∈ a ∨ ∃ edge, edge ∈ l ∧ test edge = true ∧ k = f edge) ∧
  (∀ k, k ∈ result.2 ↔ k ∈ b ∨ ∃ edge, edge ∈ l ∧ test edge = true ∧ k = g edge) ∧
  (NoDup a → NoDup result.1).
Proof.
  revert a b. induction l as [|e l IH]; intros a b; cbn zeta.
  - simpl. split; [| split]; [intros k | intros k | auto];
      (split; [auto |]); intros [H | (edge & Hin & _)]; auto;
      apply elem_of_nil in Hin; contradiction.
  - cbn [foldl]. destruct (test e) eqn:E.
    + destruct (IH (JSSet.add (f e) a) (JSSet.add (g e) b)) as (IHa & IHb & IHd).
      cbn zeta in IHa, IHb, IHd. split; [| split].
      * intros k. rewrite IHa, JSSetFacts.elem_of_add. split.
        -- intros [[-> | H] | (edge & Hin & Ht & Hk)]; [| auto |].
           ++ right. exists e. split; [apply elem_of_cons; auto | auto].
           ++ right. exists edge. split; [apply elem_of_cons; auto | auto].
        -- intros [H | (edge & Hin & Ht & Hk)]; [auto |].
           apply elem_of_cons in Hin as [-> | Hin]; [auto |].
           right. exists edge. auto.
      * intros k. rewrite IHb, JSSetFacts.elem_of_add. split.
        -- intros [[-> | H] | (edge & Hin & Ht & Hk)]; [| auto |].
           ++ right. exists e. split; [apply elem_of_cons; auto | auto].
           ++ right. exists edge. split; [apply elem_of_cons; auto | auto].
        -- intros [H | (edge & Hin & Ht & Hk)]; [auto |].
           apply elem_of_cons in Hin as [-> | Hin]; [auto |].
           right. exists edge. auto.
      * intros Ha. apply IHd, JSSetFacts.NoDup_add, Ha.
    + destruct (IH a b) as (IHa & IHb & IHd). cbn zeta in IHa, IHb, IHd.
      split; [| split]; [| | exact IHd].
      * intros k. rewrite IHa. split.
        -- intros [H | (edge & Hin & Ht & Hk)]; [auto |].
           right. exists edge. split; [apply elem_of_cons; auto | auto].
        -- intros [H | (edge & Hin & Ht & Hk)]; [auto |].
           apply elem_of_cons in Hin as [-> | Hin]; [congruence |].
           right. exists edge. auto.
      * intros k. rewrite IHb. split.
        -- intros [H | (edge & Hin & Ht & Hk)]; [auto |].
           right. exists edge. split; [apply elem_of_cons; auto | auto].
        -- intros [H | (edge & Hin & Ht & Hk)]; [auto |].
           apply elem_of_cons in Hin as [-> | Hin]; [congruence |].
           right. exists edge. auto.
Qed.

Lemma incoming_spec (nodeId : string) :
  (∀ k, k ∈ (incoming processedData nodeId).1 ↔
        ∃ edge, edge ∈ GraphData.edges processedData ∧
                Edge.target edge = nodeId ∧ k = Edge.source edge) ∧
  (∀ k, k ∈ (incoming processedData nodeId).2 ↔
        ∃ edge, edge ∈ GraphData.edges processedData ∧
                Edge.target edge = nodeId ∧ k = Edge.key edge) ∧
  NoDup (incoming processedData nodeId).1.
Proof.
  destruct (collect_fold (λ edge, bool_decide (Edge.target edge = nodeId))
              Edge.source Edge.key (GraphData.edges processedData) JSSet.empty JSSet.empty)
    as (Ha & Hb & Hd).
  cbn zeta in Ha, Hb, Hd. unfold incoming. split; [| split].
  - intros k. rewrite Ha. unfold JSSet.empty. rewrite elem_of_nil.
    setoid_rewrite bool_decide_eq_true. tauto.
  - intros k. rewrite Hb. unfold JSSet.empty. rewrite elem_of_nil.
    setoid_rewrite bool_decide_eq_true. tauto.
  - apply Hd, NoDup_nil_2.
Qed.

Lemma outgoing_spec (nodeId : string) :
  (∀ k, k ∈ (outgoing processedData nodeId).1 ↔
        ∃ edge, edge ∈ GraphData.edges processedData ∧
                Edge.source edge = nodeId ∧ k = Edge.target edge) ∧
  (∀ k, k ∈ (outgoing processedData nodeId).2 ↔
        ∃ edge, edge ∈ GraphData.edges processedData ∧
                Edge.source edge = nodeId ∧ k = Edge.key edge) ∧
  NoDup (outgoing processedData nodeId).1.
Proof.
  destruct (collect_fold (λ edge, bool_decide (Edge.source edge = nodeId))
              Edge.target Edge.key (GraphData.edges processedData) JSSet.empty JSSet.empty)
    as (Ha & Hb & Hd).
  cbn zeta in Ha, Hb, Hd. unfold outgoing. split; [| split].
  - intros k. rewrite Ha. unfold JSSet.empty. rewrite elem_of_nil.
    setoid_rewrite bool_decide_eq_true. tauto.
  - intros k. rewrite Hb. unfold JSSet.empty. rewrite elem_of_nil.
    setoid_rewrite bool_decide_eq_true. tauto.
  - apply Hd, NoDup_nil_2.
Qed.

Lemma handleShowDependencies_path (node : Node.t) (st : GraphState) :
  highlightedPath (handleShowDependencies processedData node st) =
  HighlightedPath.mk
    (JSSet.of_list (Node.id node :: (incoming processedData (Node.id node)).1))
    (incoming processedData (Node.id node)).2.
Proof.
  unfold handleShowDependencies. destruct (incoming processedData (Node.id node)).
  reflexivity.
Qed.

Lemma handleShowDependents_path (node : Node.t) (st : GraphState) :
  highlightedPath (handleShowDependents processedData node st) =
  HighlightedPath.mk
    (JSSet.of_list (Node.id node :: (outgoing processedData (Node.id node)).1))
    (outgoing processedData (Node.id node)).2.
Proof.
  unfold handleShowDependents. destruct (outgoing processedData (Node.id node)).
  reflexivity.
Qed.

(** X2.  "Show dependencies" highlights the node, the sources of the edges
    that end in it and the keys of those edges, and "show dependents" the
    node, the targets of the edges that start in it and their keys; neither
    changes the selection. *)
Theorem show_dependencies_and_dependents (node : Node.t) (st : GraphState) :
  let deps := handleShowDependencies processedData node st in
  let dpts := handleShowDependents processedData node st in
  (∀ k, k ∈ HighlightedPath.nodes (highlightedPath deps) ↔
        k = Node.id node ∨
        ∃ edge, edge ∈ GraphData.edges processedData ∧
                Edge.target edge = Node.id node ∧ k = Edge.source edge) ∧
  (∀ k, k ∈ HighlightedPath.edges (highlightedPath deps) ↔
        ∃ edge, edge ∈ GraphData.edges processedData ∧
                Edge.target edge = Node.id node ∧ k = Edge.key edge) ∧
  (∀ k, k ∈ HighlightedPath.nodes (highlightedPath dpts) ↔
        k = Node.id node ∨
        ∃ edge, edge ∈ GraphData.edges processedData ∧
                Edge.source edge = Node.id node ∧ k = Edge.target edge) ∧
  (∀ k, k ∈ HighlightedPath.edges (highlightedPath dpts) ↔
        ∃ edge, edge ∈ GraphData.edges processedData ∧
                Edge.source edge = Node.id node ∧ k = Edge.key edge) ∧
  selectedNode deps = selectedNode st ∧
  selectedNode dpts = selectedNode st.
Proof.
  cbn zeta.
  destruct (incoming_spec (Node.id node)) as (Hin & Hine & _).
  destruct (outgoing_spec (Node.id node)) as (Hout & Houte & _).
  rewrite handleShowDependencies_path, handleShowDependents_path. simpl.
  split; [| split; [| split; [| split; [| split]]]].
  - intros k. rewrite JSSetFacts.elem_of_of_list, elem_of_cons, Hin. reflexivity.
  - exact Hine.
  - intros k. rewrite JSSetFacts.elem_of_of_list, elem_of_cons, Hout. reflexivity.
  - exact Houte.
  - unfold handleShowDependencies. destruct (incoming _ _). reflexivity.
  - unfold handleShowDependents. destruct (outgoing _ _). reflexivity.
Qed.

(** X3.  The neighbourhood that a click highlights is the union of what
    "show dependencies" and "show dependents" highlight, for the nodes and
    for the edge keys. *)
Theorem neighbourhood_is_dependencies_and_dependents (node : Node.t) (st : GraphState) :
  let click := highlightedPath (handleNodeClick processedData node st) in
  let deps := highlightedPath (handleShowDependencies processedData node st) in
  let dpts := highlightedPath (handleShowDependents processedData node st) in
  (∀ k, k ∈ HighlightedPath.nodes click ↔
        k ∈ HighlightedPath.nodes deps ∨ k ∈ HighlightedPath.nodes dpts) ∧
  (∀ k, k ∈ HighlightedPath.edges click ↔
        k ∈ HighlightedPath.edges deps ∨ k ∈ HighlightedPath.edges dpts).
Proof.
  cbn zeta.
  destruct (findConnectedNodes_spec (Node.id node)) as (Hcn & Hce).
  destruct (incoming_spec (Node.id node)) as (Hin & Hine & _).
  destruct (outgoing_spec (Node.id node)) as (Hout & Houte & _).
  rewrite handleShowDependencies_path, handleShowDependents_path.
  unfold handleNodeClick. simpl. unfold touches in *. split; intros k.
  - rewrite Hcn, !JSSetFacts.elem_of_of_list, !elem_of_cons, Hin, Hout. split.
    + intros [-> | (edge & He & [Hs | Ht] & [-> | ->])]; eauto 8.
    + intros [[-> | (edge & He & Ht & ->)] | [-> | (edge & He & Hs & ->)]]; eauto 8.
  - rewrite Hce, Hine, Houte. split.
    + intros (edge & He & [Hs | Ht] & ->); eauto 8.
    + intros [(edge & He & Ht & ->) | (edge & He & Hs & ->)]; eauto 8.
Qed.
End HighlightFacts.

(** X4.  "Go to parent" highlights exactly what "show dependencies"
    highlights.  When at least one edge enters the node and every edge that
    enters it leaves the same id, the selection becomes the first node of
    the node list with that id, and stays as it is when the list has no
    such node.  The selection also stays when no edge enters the node, and
    when two edges with different sources do. *)
Theorem handleGoToParent_selects_single_parent (processedData : GraphData.t)
    (node : Node.t) (st : GraphState) :
  let after := handleGoToParent processedData node st in
  highlightedPath after =
    highlightedPath (handleShowDependencies processedData node st) ∧
  (∀ parentId,
     (∃ edge, edge ∈ GraphData.edges processedData ∧ Edge.target edge = Node.id node) →
     (∀ edge, edge ∈ GraphData.edges processedData →
              Edge.target edge = Node.id node → Edge.source edge = parentId) →
     selectedNode after =
       match List.find (λ n, bool_decide (Node.id n = parentId))
               (GraphData.nodes processedData) with
       | Some parentNode => Some parentNode
       | None => selectedNode st
       end) ∧
  ((∀ edge, edge ∈ GraphData.edges processedData → Edge.target edge ≠ Node.id node) →
   selectedNode after = selectedNode st) ∧
  (∀ e1 e2, e1 ∈ GraphData.edges processedData → e2 ∈ GraphData.edges processedData →
            Edge.target e1 = Node.id node → Edge.target e2 = Node.id node →
            Edge.source e1 ≠ Edge.source e2 →
            selectedNode after = selectedNode st).
Proof.
  cbn zeta.
  destruct (incoming_spec processedData (Node.id node)) as (Hin & _ & Hdup).
  rewrite handleShowDependencies_path.
  unfold handleGoToParent, JSSet.to_array.
  destruct (incoming processedData (Node.id node)) as [parents parentEdges].
  simpl in Hin, Hdup.
  assert (Hsame : ∀ parentId k,
            (∀ edge, edge ∈ GraphData.edges processedData →
                     Edge.target edge = Node.id node → Edge.source edge = parentId) →
            k ∈ parents → k = parentId).
  { intros parentId k Hall Hk. apply Hin in Hk as (edge & He & Ht & ->).
    apply Hall; assumption. }
  destruct parents as [|first [|second rest]].
  - split; [reflexivity |]. split; [| split; intros; reflexivity].
    intros parentId (edge & He & Ht) _.
    assert (Hs : Edge.source edge ∈ @nil string) by (apply Hin; eauto).
    apply elem_of_nil in Hs. contradiction.
  - assert (Hfirst : ∃ edge, edge ∈ GraphData.edges processedData ∧
                             Edge.target edge = Node.id node ∧ first = Edge.source edge).
    { apply Hin, elem_of_cons. left. reflexivity. }
    split; [| split; [| split]].
    + destruct (List.find _ _); reflexivity.
    + intros parentId _ Hall.
      assert (Heq : first = parentId).
      { apply (Hsame parentId first Hall), elem_of_cons. left. reflexivity. }
      subst first. destruct (List.find _ _); reflexivity.
    + intros Hnone. destruct Hfirst as (edge & He & Ht & _).
      exfalso. exact (Hnone edge He Ht).
    + intros e1 e2 H1 H2 Ht1 Ht2 Hne. exfalso. apply Hne.
      assert (Hs1 : Edge.source e1 ∈ [first]) by (apply Hin; eauto).
      assert (Hs2 : Edge.source e2 ∈ [first]) by (apply Hin; eauto).
      apply list_elem_of_singleton in Hs1, Hs2. congruence.
  - split; [reflexivity |]. split; [| split; intros; reflexivity].
    intros parentId _ Hall. exfalso.
    assert (H1 : first = parentId).
    { apply (Hsame parentId first Hall), elem_of_cons. left. reflexivity. }
    assert (H2 : second = parentId).
    { apply (Hsame parentId second Hall), elem_of_cons. right.
      apply elem_of_cons. left. reflexivity. }
    apply NoDup_cons in Hdup as [Hnotin _]. apply Hnotin.
    subst. apply elem_of_cons. left. reflexivity.
Qed.

(** ** Edge keys *)

Lemma dashFree_cons (c : Ascii.ascii) (s : string) :
  dashFree (String c s) → String c s ≠ "-" +:+ s ∧ dashFree s.
Proof.
  unfold dashFree. cbn [includes]. intros H. apply orb_false_iff in H as [Hp Hs].
  split; [| exact Hs]. intros Heq. simpl in Heq. injection Heq as ->.
  simpl in Hp. destruct s; discriminate.
Qed.

(** The key of an edge determines its two ends when the source ids contain
    no [-]. *)
Lemma key_injective (s1 s2 t1 t2 : string) :
  dashFree s1 → dashFree s2 →
  s1 +:+ "-" +:+ t1 = s2 +:+ "-" +:+ t2 → s1 = s2 ∧ t1 = t2.
Proof.
  revert s2. induction s1 as [|c s1 IH]; intros s2 H1 H2 Heq.
  - destruct s2 as [|c2 s2]; cbn in Heq.
    + injection Heq as Heq. subst. auto.
    + injection Heq as Hc Heq. subst c2.
      apply dashFree_cons in H2 as [Hne _]. exfalso. apply Hne. reflexivity.
  - destruct s2 as [|c2 s2]; cbn in Heq.
    + injection Heq as Hc Heq. subst c.
      apply dashFree_cons in H1 as [Hne _]. exfalso. apply Hne. reflexivity.
    + injection Heq as Hc Heq. subst c2.
      apply dashFree_cons in H1 as [_ H1]. apply dashFree_cons in H2 as [_ H2].
      destruct (IH s2 H1 H2 Heq) as [-> ->]. auto.
Qed.

Lemma isPathHighlighted_true (path : HighlightedPath.t) (edge : Edge.t) :
  isPathHighlighted path edge = true ↔ Edge.key edge ∈ HighlightedPath.edges path.
Proof. unfold isPathHighlighted. apply JSSetFacts.has_true. Qed.

(** X5.  When the source ids contain no [-], the edges drawn as highlighted
    after a click on an edge are exactly the edges with the same source and
    target as the clicked one. *)
Theorem edge_click_highlights_only_that_edge (clicked edge : Edge.t) (st : GraphState) :
  dashFree (Edge.source clicked) → dashFree (Edge.source edge) →
  (isPathHighlighted (highlightedPath (handleEdgeClick clicked st)) edge = true ↔
   Edge.source edge = Edge.source clicked ∧ Edge.target edge = Edge.target clicked).
Proof.
  intros Hc He. rewrite isPathHighlighted_true. simpl.
  rewrite JSSetFacts.elem_of_of_list, list_elem_of_singleton. unfold Edge.key. split.
  - intros Heq. apply key_injective in Heq; assumption.
  - intros [-> ->]. reflexivity.
Qed.

(** X6.  When the source ids of the data contain no [-], the edges of the
    data drawn as highlighted after a click on a node are exactly the edges
    that touch the node, and they are the edges drawn with the widest
    stroke. *)
Theorem node_click_highlights_touching_edges (processedData : GraphData.t)
    (node : Node.t) (edge : Edge.t) (st : GraphState) :
  (∀ e, e ∈ GraphData.edges processedData → dashFree (Edge.source e)) →
  edge ∈ GraphData.edges processedData →
  let after := handleNodeClick processedData node st in
  (isPathHighlighted (highlightedPath after) edge = true ↔ touches (Node.id node) edge) ∧
  (isHighlighted (selectedNode after) edge = true ↔ touches (Node.id node) edge) ∧
  (strokeWidth (selectedNode after) (highlightedPath after) edge =
   if isPathHighlighted (highlightedPath after) edge then 2.5 else 1.5).
Proof.
  intros Hfree Hedge. cbn zeta.
  destruct (findConnectedNodes_spec processedData (Node.id node)) as (_ & Hke).
  assert (Hpath : isPathHighlighted
            (highlightedPath (handleNodeClick processedData node st)) edge = true ↔
            touches (Node.id node) edge).
  { rewrite isPathHighlighted_true. simpl. rewrite Hke. split.
    - intros (e & He & Ht & Hkey). unfold Edge.key in Hkey.
      apply key_injective in Hkey as [Hs Htg]; auto.
      unfold touches in *. destruct Ht; [left | right]; congruence.
    - intros Ht. exists edge. auto. }
  assert (Hsel : isHighlighted
            (selectedNode (handleNodeClick processedData node st)) edge = true ↔
            touches (Node.id node) edge).
  { simpl. rewrite orb_true_iff, !bool_decide_eq_true. unfold touches.
    split; intros [H | H]; auto. }
  split; [exact Hpath |]. split; [exact Hsel |].
  unfold strokeWidth.
  destruct (isPathHighlighted _ edge) eqn:Ep; [reflexivity |].
  destruct (isHighlighted _ edge) eqn:Es; [| reflexivity].
  assert (Ht : touches (Node.id node) edge) by (apply Hsel; reflexivity).
  apply Hpath in Ht. discriminate.
Qed.

(** Two different edges with one key: an id with a [-] makes the key
    ambiguous, and a click on one edge marks the other as well. *)
Example key_collision :
  let e1 := Edge.mk "a-b" "c" None in
  let e2 := Edge.mk "a" "b-c" None in
  e1 ≠ e2 ∧
  isPathHighlighted (highlightedPath (handleEdgeClick e1 (initialState 800 600))) e2 = true.
Proof. split; [discriminate | reflexivity]. Qed.

(** ** Edges and positions *)

Lemma filter_all {A : Type} (f : A → bool) (l : list A) :
  (∀ a, a ∈ l → f a = true) → List.filter f l = l.
Proof.
  induction l as [|a l IH]; intros H; simpl; [reflexivity |].
  rewrite (H a) by (apply elem_of_cons; auto).
  f_equal. apply IH. intros b Hb. apply H, elem_of_cons. auto.
Qed.

Lemma edgeIsValid_not_skipped (positions : gmap string Pos.t) (edge : Edge.t) :
  edgeIsValid positions edge = true → edgeIsSkipped positions edge = false.
Proof.
  intros H. apply edgeIsValid_true in H as (sp & tp & Hs & Ht & Hsx & _ & Htx & _).
  unfold edgeIsSkipped. rewrite Hs, Ht. apply orb_false_iff.
  split; apply at_origin_false; intros ->; [apply Hsx | apply Htx]; reflexivity.
Qed.

(** X7.  The safeguard inside the drawing loop never fires: every edge that
    passes the filter is drawn, so the edges drawn are exactly
    [validEdges], in the order of the edge list. *)
Theorem renderedEdges_is_validEdges (positions : gmap string Pos.t) (edges : list Edge.t) :
  renderedEdges positions edges = validEdges positions edges.
Proof.
  unfold renderedEdges.
  destruct (validEdges positions edges) as [|e valid] eqn:E; [reflexivity |].
  apply filter_all. intros a Ha. rewrite <- E in Ha.
  apply elem_of_list_filter in Ha as [_ Ha].
  rewrite (edgeIsValid_not_skipped _ _ Ha). reflexivity.
Qed.

(** X8.  A node that is dragged to a position with [x = 0] or [y = 0] loses
    all its edges from the drawing, whatever the other positions are, while
    the node itself stays drawn unless it is dropped exactly at the origin;
    the positions of the other nodes are not touched. *)
Theorem drag_onto_axis_hides_edges (id : string) (newPosition : Pos.t)
    (edges : list Edge.t) (st : GraphState) :
  Pos.x newPosition = 0 ∨ Pos.y newPosition = 0 →
  let after := nodePositions (handleNodePositionChange id newPosition st) in
  (∀ edge, touches id edge → edge ∉ renderedEdges after edges) ∧
  (∀ node, Node.id node = id →
           (nodeIsRendered after node = true ↔ newPosition ≠ Pos.origin)) ∧
  (∀ k, k ≠ id → after !! k = nodePositions st !! k).
Proof.
  intros Hzero. cbn zeta. unfold handleNodePositionChange. simpl.
  split; [| split].
  - intros edge Ht Hin. apply renderedEdges_valid in Hin.
    apply elem_of_list_filter in Hin as [_ H].
    apply edgeIsValid_true in H as (sp & tp & Hs & Htg & Hsx & Hsy & Htx & Hty).
    destruct Ht as [Ht | Ht]; rewrite Ht, lookup_insert_eq in *.
    + injection Hs as <-. tauto.
    + injection Htg as <-. tauto.
  - intros node Hid. unfold nodeIsRendered. rewrite Hid, lookup_insert_eq. simpl.
    rewrite negb_true_iff. apply at_origin_false.
  - intros k Hk. apply lookup_insert_ne. congruence.
Qed.

(** ** Panning *)

Lemma handleMouseMove_panning (e : MouseEvent.t) (st : GraphState) :
  isPanning st = true →
  handleMouseMove e st =
  setTransform
    (Transform.mk (MouseEvent.clientX e - Pos.x (panStart st))
                  (MouseEvent.clientY e - Pos.y (panStart st))
                  (Transform.scale (transform st)))
    st.
Proof. intros H. unfold handleMouseMove. rewrite H. reflexivity. Qed.

Lemma moves_keep_session (moves : list MouseEvent.t) (st : GraphState) :
  isPanning st = true →
  let st' := foldl (λ s e, handleMouseMove e s) st moves in
  isPanning st' = true ∧ panStart st' = panStart st ∧
  Transform.scale (transform st') = Transform.scale (transform st).
Proof.
  revert st. induction moves as [|e moves IH]; intros st Hp; cbn zeta.
  - auto.
  - cbn [foldl]. rewrite (handleMouseMove_panning _ _ Hp).
    destruct (IH (setTransform
      (Transform.mk (MouseEvent.clientX e - Pos.x (panStart st))
                    (MouseEvent.clientY e - Pos.y (panStart st))
                    (Transform.scale (transform st))) st) Hp) as (H1 & H2 & H3).
    cbn zeta in H1, H2, H3. auto.
Qed.

(** X9.  While the background is held, the view follows the pointer: after
    a press at [down] and any moves that end at [last], the translation is
    [last - (down - translation at the press)] on both axes, whatever the
    moves in between were; the scale, the positions and the selection are
    as before the press, and the pan is still under way. *)
Theorem pan_follows_pointer (down last : MouseEvent.t) (moves : list MouseEvent.t)
    (st : GraphState) :
  let pressed := handleMouseDown true down st in
  let after := handleMouseMove last (foldl (λ s e, handleMouseMove e s) pressed moves) in
  transform after =
    Transform.mk
      (MouseEvent.clientX last - (MouseEvent.clientX down - Transform.x (transform st)))
      (MouseEvent.clientY last - (MouseEvent.clientY down - Transform.y (transform st)))
      (Transform.scale (transform st)) ∧
  nodePositions after = nodePositions st ∧
  selectedNode after = selectedNode st ∧
  highlightedPath after = highlightedPath st ∧
  isPanning after = true.
Proof.
  cbn zeta.
  assert (Hp : isPanning (handleMouseDown true down st) = true) by reflexivity.
  destruct (moves_keep_session moves _ Hp) as (H1 & H2 & H3). cbn zeta in H1, H2, H3.
  rewrite (handleMouseMove_panning _ _ H1). rewrite H2, H3.
  assert (Hrest : ∀ l s, isPanning s = true →
            nodePositions (foldl (λ s e, handleMouseMove e s) s l) = nodePositions s ∧
            selectedNode (foldl (λ s e, handleMouseMove e s) s l) = selectedNode s ∧
            highlightedPath (foldl (λ s e, handleMouseMove e s) s l) = highlightedPath s).
  { induction l as [|e l IH]; intros s Hs; [auto |].
    cbn [foldl]. rewrite (handleMouseMove_panning _ _ Hs).
    destruct (IH (setTransform
      (Transform.mk (MouseEvent.clientX e - Pos.x (panStart s))
                    (MouseEvent.clientY e - Pos.y (panStart s))
                    (Transform.scale (transform s))) s) Hs) as (Ha & Hb & Hc).
    rewrite Ha, Hb, Hc. auto. }
  destruct (Hrest moves _ Hp) as (Ha & Hb & Hc).
  cbn [transform setTransform nodePositions selectedNode highlightedPath isPanning].
  rewrite Ha, Hb, Hc, H1. repeat split.
Qed.

(** X10.  Outside a pan nothing follows the pointer: moves in a state that
    is not panning, and moves after the button is released, leave the whole
    state as it is, and a press that is not on the background starts no
    pan. *)
Theorem moves_without_pan_do_nothing (down : MouseEvent.t) (moves : list MouseEvent.t)
    (st : GraphState) :
  (isPanning st = false → foldl (λ s e, handleMouseMove e s) st moves = st) ∧
  foldl (λ s e, handleMouseMove e s) (handleMouseUp st) moves = handleMouseUp st ∧
  transform (handleMouseUp st) = transform st ∧
  handleMouseDown false down st = st.
Proof.
  assert (Hidle : ∀ s, isPanning s = false →
            foldl (λ s e, handleMouseMove e s) s moves = s).
  { intros s Hs. induction moves as [|e l IH]; [reflexivity |].
    cbn [foldl]. unfold handleMouseMove at 2. rewrite Hs. exact IH. }
  split; [apply Hidle |]. split; [apply Hidle; reflexivity |].
  split; reflexivity.
Qed.

(** ** Focus and reset *)


(** X11.  Focusing a node that has an entry [(x, y)] in the position object
    selects the node and stores the transform
    [(width / 2 - x * 1.5, height / 2 - y * 1.5, 1.5)], whose scale is
    inside the zoom range and under which, in exact arithmetic, the node is
    shown at the centre of the container; the positions are not changed.
    For a node without entry whose id is not the name of a member of
    [Object.prototype] nothing happens.  For a node without entry whose id
    is such a name the handler does not return early, and the translation
    it stores is not a number. *)
Theorem handleFocusNode_centres_node (node : Node.t) (st : GraphState) :
  (∀ nodePos, nodePositions st !! Node.id node = Some nodePos →
     ∃ after,
       Proto.handleFocusNode node st = Some after ∧
       transform after =
         Transform.mk (Size.width (containerSize st) / 2 - Pos.x nodePos * 1.5)
                      (Size.height (containerSize st) / 2 - Pos.y nodePos * 1.5) 1.5 ∧
       scaleInRange (Transform.scale (transform after)) ∧
       toScreen (Transform.x (transform after)) (Transform.scale (transform after))
         (Pos.x nodePos) = Size.width (containerSize st) / 2 ∧
       toScreen (Transform.y (transform after)) (Transform.scale (transform after))
         (Pos.y nodePos) = Size.height (containerSize st) / 2 ∧
       selectedNode after = Some node ∧
       nodePositions after = nodePositions st) ∧
  (nodePositions st !! Node.id node = None → Node.id node ∉ objectPrototypeNames →
     Proto.handleFocusNode node st = Some st) ∧
  (nodePositions st !! Node.id node = None → Node.id node ∈ objectPrototypeNames →
     Proto.handleFocusNode node st = None).
Proof.
  unfold Proto.handleFocusNode. split; [| split].
  - intros nodePos Hpos. rewrite (Proto_getProperty_entry _ _ _ Hpos).
    eexists. split; [reflexivity |]. simpl. unfold toScreen, scaleInRange.
    repeat split; lra.
  - intros Hnone Hplain. rewrite (Proto_getProperty_undefined _ _ Hnone Hplain).
    reflexivity.
  - intros Hnone Hin. rewrite (Proto_getProperty_inherited _ _ Hnone Hin).
    reflexivity.
Qed.


(** ** More on zooming *)

(** X14.  For a scale in [0.1, 5]: a wheel event with [deltaY = 0] leaves
    the scale as it is, a negative [deltaY] never lowers the scale and a
    positive one never raises it; the positions and the selection are not
    touched. *)
Theorem handleWheel_direction (svgRect : DOMRect.t) (e : WheelEvent.t) (st : GraphState) :
  scaleInRange (Transform.scale (transform st)) →
  let after := handleWheel (Some svgRect) e st in
  (WheelEvent.deltaY e = 0 →
     Transform.scale (transform after) = Transform.scale (transform st)) ∧
  (WheelEvent.deltaY e <= 0 →
     Transform.scale (transform st) <= Transform.scale (transform after)) ∧
  (0 <= WheelEvent.deltaY e →
     Transform.scale (transform after) <= Transform.scale (transform st)) ∧
  nodePositions after = nodePositions st ∧
  selectedNode after = selectedNode st.
Proof.
  intros Hrange. cbn zeta. unfold scaleInRange in Hrange.
  assert (Hclamp : ∀ d,
    (d = 0 → Rmin (Rmax (Transform.scale (transform st) + d * -0.005) 0.1) 5 =
             Transform.scale (transform st)) ∧
    (d <= 0 → Transform.scale (transform st) <=
              Rmin (Rmax (Transform.scale (transform st) + d * -0.005) 0.1) 5) ∧
    (0 <= d → Rmin (Rmax (Transform.scale (transform st) + d * -0.005) 0.1) 5 <=
              Transform.scale (transform st))).
  { intros d. unfold Rmin, Rmax.
    destruct (Rle_dec (Transform.scale (transform st) + d * -0.005) 0.1);
      destruct (Rle_dec _ 5); repeat split; intros; nra. }
  destruct (Hclamp (WheelEvent.deltaY e)) as (Hzero & Hneg & Hpos).
  split; [| split; [| split; [| split]]].
  - intros Hd. simpl. apply Hzero, Hd.
  - intros Hd. simpl. apply Hneg, Hd.
  - intros Hd. simpl. apply Hpos, Hd.
  - reflexivity.
  - reflexivity.
Qed.

(** ** Layout kinds other than [circular] *)

(** X15.  Only a [circular] request is replaced: a [tree] request is laid
    out by [createCircularLayout] for every node count, also above 50, and
    [spiral], [donut] and [force] requests use their own function for every
    node count. *)
Theorem other_layout_kinds_are_kept
    (createSpiralLayout createDonutLayout createCircularLayout createForceLayout :
       list Node.t → Pos.t → Size.t → gmap string Pos.t)
    (processedData : GraphData.t) (n : nat) (center : Pos.t) (available : Size.t) :
  let layout kind :=
    layoutPositions createSpiralLayout createDonutLayout createCircularLayout
      createForceLayout processedData (actualLayout n kind) center available in
  let nodes := GraphData.nodes processedData in
  layout tree = createCircularLayout nodes center available ∧
  layout spiral = createSpiralLayout nodes center available ∧
  layout donut = createDonutLayout nodes center available ∧
  layout force = createForceLayout nodes center available.
Proof.
  cbn zeta. unfold actualLayout, layoutPositions.
  destruct (50 <? n)%nat; repeat split; reflexivity.
Qed.

(** ** Statistics and labels *)

Lemma sumCounts_bump (types : gmap string nat) (type : string) :
  sumCounts (<[type := (default 0 (types !! type) + 1)%nat]> types) =
  (sumCounts types + 1)%nat.
Proof.
  unfold sumCounts. destruct (types !! type) as [count|] eqn:E; simpl.
  - rewrite <- (insert_delete_id types type count E) at 2.
    rewrite <- insert_delete_eq.
    rewrite !map_fold_insert_L; try apply lookup_delete_eq; intros; lia.
  - rewrite map_fold_insert_L; [lia | intros; lia | exact E].
Qed.

Lemma stats_fold_sum (nodes : list Node.t) (types : gmap string nat) :
  sumCounts
    (foldl (λ (types : gmap string nat) node,
              let type := getNodeDisplayType node in
              <[type := (default 0 (types !! type) + 1)%nat]> types)
           types nodes) =
  (sumCounts types + length nodes)%nat.
Proof.
  revert types. induction nodes as [|node nodes IH]; intros types; simpl; [lia |].
  rewrite IH, sumCounts_bump. lia.
Qed.

Lemma stats_fold_lookup (nodes : list Node.t) (types : gmap string nat) (type : string) :
  foldl (λ (types : gmap string nat) node,
           let type := getNodeDisplayType node in
           <[type := (default 0 (types !! type) + 1)%nat]> types)
        types nodes !! type =
  if (typeCount type nodes =? 0)%nat then types !! type
  else Some (default 0 (types !! type) + typeCount type nodes)%nat.
Proof.
  revert types. induction nodes as [|node nodes IH]; intros types; [reflexivity |].
  cbn [foldl]. rewrite IH. unfold typeCount. cbn [List.filter]. cbn zeta.
  destruct (decide (getNodeDisplayType node = type)) as [Heq | Hne].
  - rewrite Heq, bool_decide_eq_true_2 by reflexivity. rewrite lookup_insert_eq.
    cbn [length default].
    destruct (length _ =? 0)%nat eqn:E.
    + apply Nat.eqb_eq in E. rewrite E. simpl. f_equal; lia.
    + simpl. f_equal; lia.
  - rewrite bool_decide_eq_false_2 by exact Hne.
    rewrite lookup_insert_ne by exact Hne. reflexivity.
Qed.

(** X16.  The statistics count every node once: [total] is the length of
    the node list, the entry of a type is the number of nodes with that
    display type (and is missing when there is none), and the entries add up
    to [total]. *)
Theorem nodeStats_counts_every_node (processedData : GraphData.t) :
  let stats := nodeStats processedData in
  let nodes := GraphData.nodes processedData in
  total stats = length nodes ∧
  (∀ type, types stats !! type =
           if (typeCount type nodes =? 0)%nat then None
           else Some (typeCount type nodes)) ∧
  sumCounts (types stats) = total stats.
Proof.
  cbn zeta. unfold nodeStats. simpl. split; [reflexivity |]. split.
  - intros type. rewrite stats_fold_lookup, lookup_empty. reflexivity.
  - rewrite stats_fold_sum. unfold sumCounts. rewrite map_fold_empty. reflexivity.
Qed.

Lemma js_or_else_nonempty (a : option string) (b : string) :
  b ≠ "" → js_or_else a b ≠ "".
Proof.
  intros Hb. unfold js_or_else. destruct a as [s|]; [| exact Hb].
  destruct (bool_decide (s = "")) eqn:E; [exact Hb |].
  apply bool_decide_eq_false in E. exact E.
Qed.

Lemma js_or_else_same (s b : string) : s ≠ "" → js_or_else (Some s) b = s.
Proof.
  intros Hs. unfold js_or_else. rewrite bool_decide_eq_false_2 by exact Hs. reflexivity.
Qed.

Lemma truthy_some (s : string) : truthy (Some s) = negb (bool_decide (s = "")).
Proof. reflexivity. Qed.

Lemma js_or_else_empty (a : option string) : js_or_else a "" = "" ↔ truthy a = false.
Proof.
  unfold js_or_else, truthy. destruct a as [s|]; [| tauto].
  destruct (bool_decide (s = "")) eqn:E; simpl.
  - tauto.
  - apply bool_decide_eq_false in E. split; [contradiction | discriminate].
Qed.

Lemma truthy_true (o : option string) (b : string) :
  truthy o = true → ∃ s, o = Some s ∧ s ≠ "" ∧ js_or_else o b = s.
Proof.
  destruct o as [s|]; [| discriminate]. rewrite truthy_some, negb_true_iff.
  intros H. apply bool_decide_eq_false in H. exists s.
  split; [reflexivity |]. split; [exact H |]. apply js_or_else_same, H.
Qed.

Lemma js_or_chain_again (a b c : option string) :
  js_or_else (js_or (js_or (Some (js_or_else (js_or (js_or a b) c) "")) b) c) "" =
  js_or_else (js_or (js_or a b) c) "".
Proof.
  destruct (truthy (js_or (js_or a b) c)) eqn:E.
  - destruct (truthy_true _ "" E) as (s & Hs & Hne & Hres). rewrite Hres.
    unfold js_or at 1 2. rewrite truthy_some, bool_decide_eq_false_2 by exact Hne.
    simpl negb. cbv iota. rewrite truthy_some, bool_decide_eq_false_2 by exact Hne.
    simpl negb. cbv iota. apply js_or_else_same, Hne.
  - rewrite (proj2 (js_or_else_empty _) E).
    unfold js_or at 2. simpl truthy. cbv iota.
    apply js_or_else_empty. unfold js_or in *.
    destruct (truthy a) eqn:Ea.
    + rewrite Ea in E. congruence.
    + destruct (truthy b) eqn:Eb.
      * rewrite Eb in E. congruence.
      * exact E.
Qed.

(** X17.  The name and the type shown for a node are never empty, and the
    labels survive the way [Graph] hands nodes on: the node component, which
    computes its labels again from the node it is given, arrives at the same
    name and type, and the path of that node is the path [Graph] computed. *)
Theorem display_labels_survive_rendering (node : Node.t) :
  getNodeDisplayName node ≠ "" ∧
  getNodeDisplayType node ≠ "" ∧
  GraphNodeComponent.displayName (renderedNode node) = getNodeDisplayName node ∧
  GraphNodeComponent.displayType (renderedNode node) = getNodeDisplayType node ∧
  getNodeDisplayPath (renderedNode node) = getNodeDisplayPath node.
Proof.
  assert (Hname : getNodeDisplayName node ≠ "").
  { apply js_or_else_nonempty. discriminate. }
  assert (Htype : getNodeDisplayType node ≠ "").
  { apply js_or_else_nonempty. discriminate. }
  split; [exact Hname |]. split; [exact Htype |]. split; [| split].
  - unfold GraphNodeComponent.displayName, getNodeDisplayName at 1, js_or.
    cbn [renderedNode Node.name Node.title Node.id].
    rewrite truthy_some, bool_decide_eq_false_2 by exact Hname.
    apply js_or_else_same, Hname.
  - unfold GraphNodeComponent.displayType, getNodeDisplayType at 1.
    cbn [renderedNode Node.type]. apply js_or_else_same, Htype.
  - unfold getNodeDisplayPath.
    cbn [renderedNode Node.filepath Node.metadata]. apply js_or_chain_again.
Qed.

(** ** The path shown in a node *)

Lemma length_string_app (a b : string) :
  String.length (a +:+ b) = (String.length a + String.length b)%nat.
Proof. induction a as [|c a IH]; simpl; [reflexivity | rewrite IH; reflexivity]. Qed.

Lemma substring_whole (s : string) : String.substring 0 (String.length s) s = s.
Proof. induction s as [|c s IH]; simpl; [reflexivity | rewrite IH; reflexivity]. Qed.

(** The part of a string from index [n] on is a suffix of it. *)
Lemma substring_suffix (n : nat) (s : string) :
  (n <= String.length s)%nat →
  ∃ pre, s = pre +:+ String.substring n (String.length s - n) s ∧
         String.length pre = n.
Proof.
  revert s. induction n as [|n IH]; intros s Hn.
  - exists "". rewrite Nat.sub_0_r, substring_whole. split; reflexivity.
  - destruct s as [|c s]; simpl in Hn; [lia |].
    destruct (IH s) as (pre & Hs & Hlen); [lia |].
    exists (String c pre). split; [| simpl; f_equal; exact Hlen].
    change (String c s =
            String c (pre +:+ String.substring n (String.length s - n) s)).
    f_equal. exact Hs.
Qed.

(** X18.  The path shown in a node is the file path itself when that has
    at most 25 characters, and otherwise three dots followed by its last 25
    characters; it is never longer than 28 characters. *)
Theorem displayPath_keeps_end (node : Node.t) :
  let path := js_or_else (Node.filepath node) "" in
  let shown := GraphNodeComponent.displayPath node in
  (String.length shown <= 28)%nat ∧
  ((String.length path <= 25)%nat → shown = path) ∧
  ((25 < String.length path)%nat →
     ∃ pre suf, path = pre +:+ suf ∧ String.length suf = 25%nat ∧
                shown = "..." +:+ suf).
Proof.
  cbn zeta. unfold GraphNodeComponent.displayPath. cbn zeta.
  set (path := js_or_else (Node.filepath node) "").
  destruct (bool_decide (path = "")) eqn:Eempty.
  - apply bool_decide_eq_true in Eempty. rewrite Eempty. simpl.
    split; [lia |]. split; [reflexivity | lia].
  - destruct (25 <? String.length path)%nat eqn:Elong.
    + apply Nat.ltb_lt in Elong.
      destruct (substring_suffix (String.length path - 25) path) as (pre & Hs & Hlen);
        [lia |].
      replace (String.length path - (String.length path - 25))%nat with 25%nat in Hs
        by lia.
      assert (Hsuf : String.length
                (String.substring (String.length path - 25) 25 path) = 25%nat).
      { apply (f_equal String.length) in Hs. rewrite length_string_app, Hlen in Hs. lia. }
      split; [| split].
      * rewrite length_string_app, Hsuf. simpl. lia.
      * lia.
      * intros _. exists pre, (String.substring (String.length path - 25) 25 path).
        split; [exact Hs |]. split; [exact Hsuf | reflexivity].
    + apply Nat.ltb_ge in Elong. split; [lia |]. split; [reflexivity | lia].
Qed.

(** ** Sections of the details panel *)

(** X19.  Toggling a section flips the membership of that section and of
    no other: afterwards the set holds the section exactly when it did not
    before, and every other id exactly when it did; the result has no
    duplicates, and a second toggle brings the membership back. *)
Theorem toggleSection_flips_one (sectionId : string) (prev : JSSet.t) (k : string) :
  (k ∈ toggleSection sectionId prev ↔
     (k = sectionId ∧ sectionId ∉ prev) ∨ (k ≠ sectionId ∧ k ∈ prev)) ∧
  NoDup (toggleSection sectionId prev) ∧
  (k ∈ toggleSection sectionId (toggleSection sectionId prev) ↔ k ∈ prev).
Proof.
  assert (Hflip : ∀ s x,
    x ∈ toggleSection sectionId s ↔
    (x = sectionId ∧ sectionId ∉ s) ∨ (x ≠ sectionId ∧ x ∈ s)).
  { intros s x. unfold toggleSection, JSSet.to_array. cbn zeta.
    destruct (JSSet.has (JSSet.of_list s) sectionId) eqn:E.
    - apply JSSetFacts.has_true in E. rewrite JSSetFacts.elem_of_of_list in E.
      rewrite elem_of_list_filter, JSSetFacts.elem_of_of_list.
      rewrite negb_true_iff, bool_decide_eq_false. split.
      + intros [H1 H2]. right. auto.
      + intros [[_ H] | [H1 H2]]; [contradiction | auto].
    - assert (Hno : sectionId ∉ s).
      { intros Hin. rewrite <- JSSetFacts.elem_of_of_list in Hin.
        apply JSSetFacts.has_true in Hin. congruence. }
      rewrite JSSetFacts.elem_of_add, JSSetFacts.elem_of_of_list. split.
      + intros [-> | H]; [auto |]. right. split; [| exact H]. intros ->. contradiction.
      + intros [[-> _] | [_ H]]; auto. }
  split; [apply Hflip |]. split.
  - unfold toggleSection, JSSet.to_array. cbn zeta.
    destruct (JSSet.has _ sectionId).
    + apply NoDup_ListNoDup, List.NoDup_filter, NoDup_ListNoDup, JSSetFacts.NoDup_of_list.
    + apply JSSetFacts.NoDup_add, JSSetFacts.NoDup_of_list.
  - rewrite Hflip, !Hflip. destruct (decide (k = sectionId)) as [-> | Hne].
    + destruct (decide (sectionId ∈ prev)); tauto.
    + tauto.
Qed.

(** ** The menus and the tooltip of a node *)

Lemma step_keeps_menus_apart (totalNodesInView : nat) (st : GraphNodeComponent.State)
    (ev : GraphNodeComponent.Event) :
  GraphNodeComponent.showMenu st && GraphNodeComponent.showContextMenu st = false →
  GraphNodeComponent.showMenu (GraphNodeComponent.step totalNodesInView st ev) &&
  GraphNodeComponent.showContextMenu (GraphNodeComponent.step totalNodesInView st ev) = false.
Proof.
  intros H. destruct st as [menu tip tipPos ctx ctxPos]. simpl in H.
  destruct ev; simpl.
  - reflexivity.
  - apply andb_false_r.
  - unfold GraphNodeComponent.handleMouseEnter.
    destruct (3 <? totalNodesInView)%nat; exact H.
  - exact H.
  - unfold GraphNodeComponent.handleDocumentClick. simpl.
    destruct ctx; simpl; [apply andb_false_r | exact H].
  - reflexivity.
  - apply andb_false_r.
Qed.

(** X21.  Whatever happens to a node, in any order, its dropdown menu and
    its context menu are never open together (the callback that
    [handleContextMenu] defers is taken to run before the next event); and
    the tooltip and the inline details are never shown together. *)
Theorem node_menus_never_both_open (totalNodesInView : nat)
    (events : list GraphNodeComponent.Event) (st : GraphNodeComponent.State) :
  GraphNodeComponent.showMenu st && GraphNodeComponent.showContextMenu st = false →
  let after := GraphNodeComponent.run totalNodesInView events st in
  GraphNodeComponent.showMenu after && GraphNodeComponent.showContextMenu after = false ∧
  GraphNodeComponent.tooltipShown totalNodesInView after &&
  GraphNodeComponent.inlineDetailsShown totalNodesInView = false.
Proof.
  intros H. cbn zeta. split.
  - unfold GraphNodeComponent.run. revert st H.
    induction events as [|ev events IH]; intros st H; [exact H |].
    cbn [foldl]. apply IH, step_keeps_menus_apart, H.
  - unfold GraphNodeComponent.tooltipShown, GraphNodeComponent.inlineDetailsShown.
    destruct (3 <? totalNodesInView)%nat eqn:E.
    + apply Nat.ltb_lt in E. rewrite (proj2 (Nat.leb_gt _ _) E). apply andb_false_r.
    + rewrite andb_false_r. reflexivity.
Qed.

(** X22.  The width factor of a node lies between 0.7 and 1, never grows
    with the number of nodes, is 1 up to 50 nodes and 0.7 from 90 nodes on;
    so for a non-negative size scale the node is between
    [180 * sizeScale * 0.7] and [180 * sizeScale] wide, never wider than the
    box that [Graph] gives it and that the edges are clipped to. *)
Theorem sizeAdjustment_bounds (n m : nat) (sizeScale : R) :
  0.7 <= GraphNodeComponent.sizeAdjustment n <= 1 ∧
  ((n <= m)%nat →
     GraphNodeComponent.sizeAdjustment m <= GraphNodeComponent.sizeAdjustment n) ∧
  ((90 <= n)%nat → GraphNodeComponent.sizeAdjustment n = 0.7) ∧
  ((n <= 50)%nat → GraphNodeComponent.sizeAdjustment n = 1) ∧
  (0 <= sizeScale →
     180 * sizeScale * 0.7 <= GraphNodeComponent.nodeWidth sizeScale n <= 180 * sizeScale).
Proof.
  assert (Hrange : ∀ k, 0.7 <= GraphNodeComponent.sizeAdjustment k <= 1).
  { intros k. unfold GraphNodeComponent.sizeAdjustment.
    destruct (50 <? k)%nat; [| lra].
    pose proof (pos_INR k). unfold Rmax. destruct (Rle_dec _ _); lra. }
  split; [apply Hrange |]. split; [| split; [| split]].
  - intros Hle. unfold GraphNodeComponent.sizeAdjustment.
    destruct (50 <? n)%nat eqn:En; destruct (50 <? m)%nat eqn:Em.
    + apply le_INR in Hle. unfold Rmax.
      destruct (Rle_dec 0.7 (1 - INR m / 300));
        destruct (Rle_dec 0.7 (1 - INR n / 300)); lra.
    + apply Nat.ltb_lt in En. apply Nat.ltb_ge in Em. lia.
    + pose proof (pos_INR m). unfold Rmax. destruct (Rle_dec _ _); lra.
    + lra.
  - intros Hn. unfold GraphNodeComponent.sizeAdjustment.
    rewrite (proj2 (Nat.ltb_lt 50 n)) by lia.
    apply le_INR in Hn. replace (INR 90) with 90 in Hn by (simpl; lra).
    unfold Rmax. destruct (Rle_dec _ _); lra.
  - intros Hn. unfold GraphNodeComponent.sizeAdjustment.
    rewrite (proj2 (Nat.ltb_ge 50 n)) by lia. reflexivity.
  - intros Hs. unfold GraphNodeComponent.nodeWidth. cbn zeta.
    pose proof (Hrange n) as [Hlo Hhi]. split; nra.
Qed.

(** ** The details panel *)

Ltac split_minmax :=
  unfold Rmin, Rmax;
  repeat match goal with
         | |- context [Rle_dec ?a ?b] => destruct (Rle_dec a b)
         | H : context [Rle_dec ?a ?b] |- _ => destruct (Rle_dec a b)
         end.

(** X23.  The position the panel is given never lets it reach further
    right than 20 before the right edge or further down than 20 above the
    bottom edge, and in a container of at least 390 by 440 the panel (350 by
    400) lies inside the container with a margin of 20 on every side.  With
    room on the right the panel starts 20 to the right of the node, and
    without it but with room on the left it ends 20 to the left of it. *)
Theorem placePanel_inside_container (position : Pos.t) (containerSize : Size.t) :
  let panel := NodeDetailsPanel.placePanel position containerSize in
  let width := Size.width containerSize in
  let height := Size.height containerSize in
  Pos.x panel + 350 <= width - 20 ∧
  Pos.y panel + 400 <= height - 20 ∧
  (390 <= width → 20 <= Pos.x panel) ∧
  (440 <= height → 20 <= Pos.y panel) ∧
  (0 <= Pos.x position → Pos.x position + 390 <= width →
     Pos.x panel = Pos.x position + 20) ∧
  (width - Pos.x position < 370 → 390 <= Pos.x position <= width →
     Pos.x panel + 350 = Pos.x position - 20).
Proof.
  cbn zeta. unfold NodeDetailsPanel.placePanel. cbn zeta. cbn [Pos.x Pos.y].
  repeat split; intros; repeat case_bool_decide; split_minmax; lra.
Qed.


(** ** More on expansion *)

Lemma handleExpandNode_revealed (processedData : GraphData.t) (node : Node.t)
    (st : GraphState) (anchorPos : Pos.t) (i : nat) (k : string) :
  nodePositions st !! Node.id node = Some anchorPos →
  anchorPos ≠ Pos.origin →
  nodesToReveal (nodePositions st) (newNodeIds (discover processedData node)) !! i
    = Some k →
  nodePositions (handleExpandNode processedData node st) !! k =
  Some (placement anchorPos
          (length (nodesToReveal (nodePositions st)
                     (newNodeIds (discover processedData node)))) i).
Proof.
  intros Hanchor Hvalid Hi.
  pose proof (NoDup_nodesToReveal (nodePositions st)
                (newNodeIds (discover processedData node))) as Hdup.
  rewrite handleExpandNode_positions. cbn zeta. rewrite Hanchor. simpl default.
  rewrite (not_origin_coordinate _ Hvalid).
  assert (Hsize : (0 <? JSSet.size (nodesToReveal (nodePositions st)
                          (newNodeIds (discover processedData node))))%nat = true).
  { apply Nat.ltb_lt. unfold JSSet.size. apply lookup_lt_Some in Hi. lia. }
  rewrite Hsize. simpl andb. cbv iota.
  unfold placeAll, JSSet.to_array.
  rewrite (place_lookup_index _ _ 0 _ i k Hdup Hi). reflexivity.
Qed.

(** X25.  With the anchor at an entry other than the origin, an expansion
    writes the position object for the revealed ids and for nothing else:
    every id the reveal test selects has an entry afterwards, every other
    id has the entry, or the lack of one, that it had before, and a single
    revealed id stands 200 to the right of the anchor. *)
Theorem handleExpandNode_writes_revealed_ids (processedData : GraphData.t)
    (node : Node.t) (st : GraphState) (anchorPos : Pos.t) :
  nodePositions st !! Node.id node = Some anchorPos →
  anchorPos ≠ Pos.origin →
  let reveal :=
    Proto.nodesToReveal (nodePositions st) (newNodeIds (discover processedData node)) in
  ∃ after,
    Proto.handleExpandNode processedData node st = Some after ∧
    (∀ k, k ∈ reveal → is_Some (nodePositions after !! k)) ∧
    (∀ k, k ∉ reveal → nodePositions after !! k = nodePositions st !! k) ∧
    (∀ k, reveal = [k] →
          nodePositions after !! k =
          Some (Pos.mk (Pos.x anchorPos + 200) (Pos.y anchorPos))).
Proof.
  intros Hanchor Hvalid reveal.
  pose proof (Proto_NoDup_nodesToReveal (nodePositions st)
                (newNodeIds (discover processedData node))) as Hdup.
  eexists. split; [apply (Proto_handleExpandNode_entry _ _ _ _ Hanchor) |].
  simpl nodePositions. cbn zeta. fold reveal. fold reveal in Hdup.
  rewrite (not_origin_coordinate _ Hvalid), andb_true_r.
  unfold placeAll, JSSet.to_array, JSSet.size.
  split; [| split].
  - intros k Hk. apply list_elem_of_lookup in Hk as [i Hi].
    assert (Hsize : (0 <? length reveal)%nat = true).
    { apply Nat.ltb_lt. apply lookup_lt_Some in Hi. lia. }
    rewrite Hsize. rewrite (place_lookup_index _ _ 0 _ i k Hdup Hi). eauto.
  - intros k Hk. destruct (0 <? length reveal)%nat; [| reflexivity].
    apply place_lookup_other. exact Hk.
  - intros k Hone.
    assert (Hi : reveal !! 0%nat = Some k) by (rewrite Hone; reflexivity).
    assert (Hsize : (0 <? length reveal)%nat = true) by (rewrite Hone; reflexivity).
    rewrite Hsize. rewrite (place_lookup_index _ _ 0 _ 0 k Hdup Hi). f_equal.
    rewrite Hone.
    unfold placement, angleStep, onCircle, radius, startAngle. simpl.
    replace (0 + 0 * (2 * PI / 1)) with 0 by lra.
    rewrite cos_0, sin_0. f_equal; lra.
Qed.

(** X26.  When the anchor has an entry at the origin, or has no entry and
    an id that is not the name of a member of [Object.prototype], an
    expansion places nothing: the position object stays as it is, even if
    there are ids to reveal, while the highlight and the selection are
    still set.  When the anchor has no entry and its id is such a name, the
    guard does not hold the expansion back: if there is an id to reveal,
    the coordinates stored for it are not numbers. *)
Theorem handleExpandNode_needs_placed_anchor (processedData : GraphData.t)
    (node : Node.t) (st : GraphState) :
  (nodePositions st !! Node.id node = Some Pos.origin ∨
   (nodePositions st !! Node.id node = None ∧ Node.id node ∉ objectPrototypeNames) →
   ∃ after,
     Proto.handleExpandNode processedData node st = Some after ∧
     nodePositions after = nodePositions st ∧
     selectedNode after = Some node ∧
     (∀ k, k ∈ HighlightedPath.nodes (highlightedPath after) ↔
           k = Node.id node ∨ k ∈ newNodeIds (discover processedData node))) ∧
  (nodePositions st !! Node.id node = None →
   Node.id node ∈ objectPrototypeNames →
   Proto.nodesToReveal (nodePositions st) (newNodeIds (discover processedData node)) ≠ [] →
   Proto.handleExpandNode processedData node st = None).
Proof.
  split.
  - intros [Horigin | [Hnone Hplain]]; eexists.
    + split; [apply (Proto_handleExpandNode_entry _ _ _ _ Horigin) |].
      simpl. rewrite (proj2 (non_zero_false 0) eq_refl), andb_false_r.
      split; [reflexivity |]. split; [reflexivity |].
      intros k. rewrite JSSetFacts.elem_of_of_list, elem_of_cons. reflexivity.
    + split; [apply (Proto_handleExpandNode_no_entry _ _ _ Hnone Hplain) |].
      simpl. split; [reflexivity |]. split; [reflexivity |].
      intros k. rewrite JSSetFacts.elem_of_of_list, elem_of_cons. reflexivity.
  - intros Hnone Hin Hreveal. unfold Proto.handleExpandNode. cbn zeta.
    simpl nodePositions. rewrite (Proto_getProperty_inherited _ _ Hnone Hin).
    destruct (Proto.nodesToReveal _ _) as [|k rest]; [contradiction |]. reflexivity.
Qed.

Section DiscoveryFacts.
Variable processedData : GraphData.t.
Variable node : Node.t.

Lemma discoverEdges_ids_fold (l : list Edge.t) (d : Discovered) (c : string) :
  c ∈ newNodeIds
        (foldl (λ d edge,
                  if bool_decide (Edge.source edge = Node.id node)
                  then addChild (Edge.target edge) (Edge.key edge) d
                  else d)
               d l) ↔
  c ∈ newNodeIds d ∨
  ∃ edge, edge ∈ l ∧ Edge.source edge = Node.id node ∧ Edge.target edge = c.
Proof.
  revert d. induction l as [|e l IH]; intros d.
  - simpl. split; [auto |]. intros [H | (edge & Hin & _)]; [exact H |].
    apply elem_of_nil in Hin. contradiction.
  - cbn [foldl]. rewrite IH. case_bool_decide as Hs.
    + simpl. rewrite JSSetFacts.elem_of_add. split.
      * intros [[-> | H] | (edge & Hin & Hse & Ht)]; [| auto |].
        -- right. exists e. split; [apply elem_of_cons; auto | auto].
        -- right. exists edge. split; [apply elem_of_cons; auto | auto].
      * intros [H | (edge & Hin & Hse & Ht)]; [auto |].
        apply elem_of_cons in Hin as [-> | Hin]; [auto |].
        right. exists edge. auto.
    + split.
      * intros [H | (edge & Hin & Hse & Ht)]; [auto |].
        right. exists edge. split; [apply elem_of_cons; auto | auto].
      * intros [H | (edge & Hin & Hse & Ht)]; [auto |].
        apply elem_of_cons in Hin as [-> | Hin]; [contradiction |].
        right. exists edge. auto.
Qed.

(** A step of the two metadata loops adds at most the id of a node of the
    node list. *)
Lemma discoverDependencies_adds_nodes (P : string → Prop) (deps : list string)
    (d : Discovered) :
  (∀ n, n ∈ GraphData.nodes processedData → P (Node.id n)) →
  (∀ c, c ∈ newNodeIds d → P c) →
  ∀ c, c ∈ newNodeIds (discoverDependencies processedData node deps d) → P c.
Proof.
  intros Hnodes. unfold discoverDependencies.
  apply (foldl_preserves (λ d, ∀ c, c ∈ newNodeIds d → P c)).
  intros a dep Ha. destruct (List.find _ _) as [n|] eqn:Hfind; [| exact Ha].
  apply find_some in Hfind as [Hn _]. apply list_elem_of_In in Hn.
  intros c Hc. simpl in Hc. apply JSSetFacts.elem_of_add in Hc as [-> | Hc]; auto.
Qed.

Lemma discoverImports_adds_nodes (P : string → Prop) (imps : list Import)
    (d : Discovered) :
  (∀ n, n ∈ GraphData.nodes processedData → P (Node.id n)) →
  (∀ c, c ∈ newNodeIds d → P c) →
  ∀ c, c ∈ newNodeIds (discoverImports processedData node imps d) → P c.
Proof.
  intros Hnodes. unfold discoverImports.
  apply (foldl_preserves (λ d, ∀ c, c ∈ newNodeIds d → P c)).
  intros a imp Ha. destruct (importNameOf imp) as [importName|]; [| exact Ha].
  destruct (bool_decide (importName = "")); [exact Ha |].
  destruct (List.find _ _) as [n|] eqn:Hfind; [| exact Ha].
  apply find_some in Hfind as [Hn _]. apply list_elem_of_In in Hn.
  intros c Hc. simpl in Hc. apply JSSetFacts.elem_of_add in Hc as [-> | Hc]; auto.
Qed.

(** The two metadata loops never remove an id. *)
Lemma discoverDependencies_keeps (deps : list string) (d : Discovered) (c : string) :
  c ∈ newNodeIds d → c ∈ newNodeIds (discoverDependencies processedData node deps d).
Proof.
  unfold discoverDependencies. apply (foldl_preserves (λ d, c ∈ newNodeIds d)).
  intros a dep Ha. destruct (List.find _ _); [| exact Ha].
  simpl. apply JSSetFacts.elem_of_add. auto.
Qed.

Lemma discoverImports_keeps (imps : list Import) (d : Discovered) (c : string) :
  c ∈ newNodeIds d → c ∈ newNodeIds (discoverImports processedData node imps d).
Proof.
  unfold discoverImports. apply (foldl_preserves (λ d, c ∈ newNodeIds d)).
  intros a imp Ha. destruct (importNameOf imp) as [importName|]; [| exact Ha].
  destruct (bool_decide (importName = "")); [exact Ha |].
  destruct (List.find _ _); [| exact Ha].
  simpl. apply JSSetFacts.elem_of_add. auto.
Qed.

(** X27.  An expansion discovers the target of every edge that leaves the
    anchor; every other id it discovers is the id of a node of the node
    list, found through the metadata; and for an anchor without metadata the
    discovered ids are exactly the targets of its outgoing edges.  No id is
    discovered twice. *)
Theorem discover_finds_children :
  let found := newNodeIds (discover processedData node) in
  let child c :=
    ∃ edge, edge ∈ GraphData.edges processedData ∧
            Edge.source edge = Node.id node ∧ Edge.target edge = c in
  (∀ c, child c → c ∈ found) ∧
  (∀ c, c ∈ found →
        child c ∨ ∃ n, n ∈ GraphData.nodes processedData ∧ Node.id n = c) ∧
  (Node.metadata node = None → ∀ c, c ∈ found ↔ child c) ∧
  NoDup found.
Proof.
  cbn zeta.
  set (d0 := discoverEdges processedData node
               (mkDiscovered JSSet.empty JSSet.empty JSSet.empty)).
  assert (H0 : ∀ c, c ∈ newNodeIds d0 ↔
            ∃ edge, edge ∈ GraphData.edges processedData ∧
                    Edge.source edge = Node.id node ∧ Edge.target edge = c).
  { intros c. unfold d0, discoverEdges. rewrite discoverEdges_ids_fold. simpl.
    unfold JSSet.empty. rewrite elem_of_nil. tauto. }
  split; [| split; [| split]].
  - intros c Hc. apply H0 in Hc. unfold discover. fold d0.
    destruct (Node.metadata node) as [metadata|]; [| exact Hc].
    assert (H1 : c ∈ newNodeIds
              match Metadata.outgoingDependencies metadata with
              | Some deps => discoverDependencies processedData node deps d0
              | None => d0
              end).
    { destruct (Metadata.outgoingDependencies metadata);
        [apply discoverDependencies_keeps |]; exact Hc. }
    destruct (Metadata.imports metadata); [apply discoverImports_keeps |]; exact H1.
  - set (P := λ c : string,
          (∃ edge, edge ∈ GraphData.edges processedData ∧
                   Edge.source edge = Node.id node ∧ Edge.target edge = c) ∨
          ∃ n, n ∈ GraphData.nodes processedData ∧ Node.id n = c).
    assert (Hnodes : ∀ n, n ∈ GraphData.nodes processedData → P (Node.id n)).
    { intros n Hn. right. exists n. auto. }
    assert (Hd0 : ∀ c, c ∈ newNodeIds d0 → P c).
    { intros c Hc. left. apply H0, Hc. }
    unfold discover. fold d0.
    destruct (Node.metadata node) as [metadata|]; [| exact Hd0].
    assert (H1 : ∀ c, c ∈ newNodeIds
              match Metadata.outgoingDependencies metadata with
              | Some deps => discoverDependencies processedData node deps d0
              | None => d0
              end → P c).
    { destruct (Metadata.outgoingDependencies metadata);
        [apply discoverDependencies_adds_nodes |]; assumption. }
    destruct (Metadata.imports metadata);
      [apply discoverImports_adds_nodes |]; assumption.
  - intros Hnone c. unfold discover. fold d0. rewrite Hnone. apply H0.
  - apply (linked_discover processedData node).
Qed.
End DiscoveryFacts.

(** ** Invariants over all interactions *)







Lemma elem_of_nodeIds (processedData : GraphData.t) (n : Node.t) :
  n ∈ GraphData.nodes processedData → Node.id n ∈ nodeIds processedData.
Proof. intros H. unfold nodeIds. apply list_elem_of_fmap. exists n. auto. Qed.

(** On data whose edges join nodes of the node list, an expansion
    discovers only ids of the node list. *)
Lemma discovered_in_nodeIds (processedData : GraphData.t) (node : Node.t) :
  edgesJoinNodes processedData →
  ∀ c, c ∈ newNodeIds (discover processedData node) → c ∈ nodeIds processedData.
Proof.
  intros Hjoin. unfold discover.
  set (d0 := discoverEdges processedData node
               (mkDiscovered JSSet.empty JSSet.empty JSSet.empty)).
  assert (Hd0 : ∀ c, c ∈ newNodeIds d0 → c ∈ nodeIds processedData).
  { intros c Hc. unfold d0, discoverEdges in Hc.
    apply discoverEdges_ids_fold in Hc as [Hc | (edge & He & _ & <-)].
    - apply elem_of_nil in Hc. contradiction.
    - apply (Hjoin edge He). }
  destruct (Node.metadata node) as [metadata|]; [| exact Hd0].
  assert (H1 : ∀ c, c ∈ newNodeIds
            match Metadata.outgoingDependencies metadata with
            | Some deps => discoverDependencies processedData node deps d0
            | None => d0
            end → c ∈ nodeIds processedData).
  { destruct (Metadata.outgoingDependencies metadata);
      [apply discoverDependencies_adds_nodes |];
      auto using elem_of_nodeIds. }
  destruct (Metadata.imports metadata);
    [apply discoverImports_adds_nodes |]; auto using elem_of_nodeIds.
Qed.

(** X29.  When every edge of the data joins two nodes of the node list,
    every interaction about a node or an edge of the data leaves a highlight
    that names only ids of the node list. *)
Theorem highlight_names_only_nodes (processedData : GraphData.t) (i : Interaction)
    (st : GraphState) (k : string) :
  edgesJoinNodes processedData →
  aboutData processedData i →
  (∀ x, x ∈ HighlightedPath.nodes (highlightedPath st) → x ∈ nodeIds processedData) →
  k ∈ HighlightedPath.nodes (highlightedPath (interact processedData st i)) →
  k ∈ nodeIds processedData.
Proof.
  intros Hjoin Habout Hbefore.
  destruct i; cbn [interact aboutData] in *.
  - destruct op as [| | svgRect e]; simpl; [apply Hbefore | apply Hbefore |].
    destruct svgRect; apply Hbefore.
  - unfold handleMouseDown. destruct onBackground; apply Hbefore.
  - unfold handleMouseMove. destruct (isPanning st); apply Hbefore.
  - apply Hbefore.
  - simpl. intros Hk.
    apply (proj1 (findConnectedNodes_spec processedData (Node.id node))) in Hk.
    destruct Hk as [-> | (edge & He & _ & [-> | ->])];
      [exact Habout | apply (Hjoin edge He) | apply (Hjoin edge He)].
  - simpl. rewrite JSSetFacts.elem_of_of_list, !elem_of_cons, elem_of_nil.
    intros [-> | [-> | []]]; apply (Hjoin edge Habout).
  - unfold handleBackgroundClick. destruct onBackground; [| apply Hbefore].
    simpl. intros Hk. apply elem_of_nil in Hk. contradiction.
  - rewrite handleShowDependencies_path. simpl.
    rewrite JSSetFacts.elem_of_of_list, elem_of_cons.
    intros [-> | Hk]; [exact Habout |].
    apply (proj1 (incoming_spec processedData (Node.id node))) in Hk.
    destruct Hk as (edge & He & _ & ->). apply (Hjoin edge He).
  - rewrite handleShowDependents_path. simpl.
    rewrite JSSetFacts.elem_of_of_list, elem_of_cons.
    intros [-> | Hk]; [exact Habout |].
    apply (proj1 (outgoing_spec processedData (Node.id node))) in Hk.
    destruct Hk as (edge & He & _ & ->). apply (Hjoin edge He).
  - assert (Hpath : highlightedPath (handleGoToParent processedData node st) =
              highlightedPath (handleShowDependencies processedData node st)).
    { unfold handleGoToParent, handleShowDependencies.
      destruct (incoming _ _) as [parents parentEdges].
      destruct (JSSet.to_array parents) as [|p [|q rest]]; try reflexivity.
      destruct (List.find _ _); reflexivity. }
    rewrite Hpath, handleShowDependencies_path. simpl.
    rewrite JSSetFacts.elem_of_of_list, elem_of_cons.
    intros [-> | Hk]; [exact Habout |].
    apply (proj1 (incoming_spec processedData (Node.id node))) in Hk.
    destruct Hk as (edge & He & _ & ->). apply (Hjoin edge He).
  - rewrite handleExpandNode_highlight. simpl.
    rewrite JSSetFacts.elem_of_of_list, elem_of_cons.
    intros [-> | Hk]; [exact Habout |].
    assert (Hall := discovered_in_nodeIds processedData node Hjoin).
    apply Hall, Hk.
  - unfold handleFocusNode. destruct (nodePositions st !! Node.id node); apply Hbefore.
  - apply Hbefore.
  - simpl. intros Hk. apply elem_of_nil in Hk. contradiction.
Qed.

Lemma handleGoToParent_positions (processedData : GraphData.t) (node : Node.t)
    (st : GraphState) :
  nodePositions (handleGoToParent processedData node st) = nodePositions st.
Proof.
  unfold handleGoToParent. destruct (incoming _ _) as [parents parentEdges].
  destruct (JSSet.to_array parents) as [|p [|q rest]]; try reflexivity.
  destruct (List.find _ _); reflexivity.
Qed.

Lemma interact_positions (processedData : GraphData.t) (i : Interaction)
    (st : GraphState) :
  edgesJoinNodes processedData →
  aboutData processedData i →
  (∀ x, is_Some (nodePositions st !! x) → x ∈ nodeIds processedData) →
  ∀ k, is_Some (nodePositions (interact processedData st i) !! k) →
       k ∈ nodeIds processedData.
Proof.
  intros Hjoin Habout Hbefore k.
  destruct i; cbn [interact aboutData] in *.
  - destruct op as [| | svgRect e]; simpl; [apply Hbefore | apply Hbefore |].
    destruct svgRect; apply Hbefore.
  - unfold handleMouseDown. destruct onBackground; apply Hbefore.
  - unfold handleMouseMove. destruct (isPanning st); apply Hbefore.
  - apply Hbefore.
  - apply Hbefore.
  - apply Hbefore.
  - unfold handleBackgroundClick. destruct onBackground; apply Hbefore.
  - unfold handleShowDependencies. destruct (incoming _ _). apply Hbefore.
  - unfold handleShowDependents. destruct (outgoing _ _). apply Hbefore.
  - rewrite handleGoToParent_positions. apply Hbefore.
  - rewrite handleExpandNode_positions. cbn zeta.
    destruct (_ && _); [| apply Hbefore].
    destruct (decide (k ∈ nodesToReveal (nodePositions st)
                            (newNodeIds (discover processedData node)))) as [Hin | Hout].
    + intros _. apply elem_of_nodesToReveal in Hin as [Hin _].
      apply (discovered_in_nodeIds processedData node Hjoin), Hin.
    + unfold placeAll, JSSet.to_array. rewrite place_lookup_other by exact Hout.
      apply Hbefore.
  - unfold handleFocusNode. destruct (nodePositions st !! Node.id node); apply Hbefore.
  - simpl. destruct (decide (id = k)) as [<- | Hne].
    + intros _. exact Habout.
    + rewrite lookup_insert_ne by exact Hne. apply Hbefore.
  - rewrite resetEffect_lookup. fold (nodeIds processedData).
    case_bool_decide as Hk; [intros _; exact Hk |]. intros [? ?]. discriminate.
Qed.

(** X30.  When every edge of the data joins two ids of the node list, the
    position map never gets an entry for an id outside the node list: if it
    has none before, it has none after any sequence of interactions about
    nodes and edges of the data, expansions and node drags included. *)
Theorem positions_name_only_nodes (processedData : GraphData.t)
    (interactions : list Interaction) (st : GraphState) :
  edgesJoinNodes processedData →
  Forall (aboutData processedData) interactions →
  (∀ x, is_Some (nodePositions st !! x) → x ∈ nodeIds processedData) →
  ∀ k, is_Some (nodePositions (foldl (interact processedData) st interactions) !! k) →
       k ∈ nodeIds processedData.
Proof.
  intros Hjoin Hall. revert st.
  induction Hall as [|i interactions Hi Hrest IH]; intros st Hbefore; [exact Hbefore |].
  cbn [foldl]. apply IH. apply interact_positions; assumption.
Qed.

(** * Worked instances *)

Example includes_samples :
  includes "./lib/util.ts" "lib/util.ts" = true ∧
  includes "abc" "" = true ∧
  includes "abc" "cb" = false.
Proof. repeat split; reflexivity. Qed.

(** The edge to [s1], the dependency [Store] (the same node, found by name)
    and the import of [lib/util.ts] (found by file path) give two children. *)
Example discover_through_metadata :
  discover Example.project Example.app =
  mkDiscovered ["s1"; "u1"] ["app-s1"; "app-u1"] ["app-s1"; "app-u1"].
Proof. reflexivity. Qed.

(** A wheel step of [-100] at the initial transform keeps the point under
    the pointer. *)
Lemma handleWheel_fixed_point_witness :
  let st := initialState 800 600 in
  let st' := handleWheel (Some Example.rect) Example.wheel st in
  scaleInRange (Transform.scale (transform st)) ∧
  toGraph (Transform.x (transform st')) (Transform.scale (transform st'))
    (WheelEvent.clientX Example.wheel - DOMRect.left Example.rect) =
  toGraph (Transform.x (transform st)) (Transform.scale (transform st))
    (WheelEvent.clientX Example.wheel - DOMRect.left Example.rect).
Proof.
  assert (H : scaleInRange (Transform.scale (transform (initialState 800 600)))).
  { unfold scaleInRange. simpl. lra. }
  split; [exact H |].
  exact (proj1 (proj2
    (handleWheel_fixed_point Example.rect Example.wheel (initialState 800 600) H))).
Defined.

(** A mixed run of zoom operations, and 100 zoom-in calls, from the initial
    transform. *)
Lemma zoom_scale_stays_in_range_witness :
  let st := initialState 800 600 in
  let ops := [ZoomIn; Wheel (Some Example.rect) Example.wheel; ZoomOut; ZoomOut] in
  scaleInRange (Transform.scale (transform st)) ∧
  scaleInRange (Transform.scale (transform (zoomRun ops st))) ∧
  Transform.scale (transform (Nat.iter 100 handleZoomIn st)) <= 5.
Proof.
  assert (H : scaleInRange (Transform.scale (transform (initialState 800 600)))).
  { unfold scaleInRange. simpl. lra. }
  split; [exact H |].
  pose proof (zoom_scale_stays_in_range
    [ZoomIn; Wheel (Some Example.rect) Example.wheel; ZoomOut; ZoomOut] 100%nat
    (initialState 800 600) H) as (Hops & H100 & _).
  split; [exact Hops | exact H100].
Defined.

(** Of the edges [a-b], [a-c] and [a-d] only [a-b] is kept: [c] is at the
    origin and [d] has no entry. *)
Lemma validEdges_entries_placed_witness :
  let edges := [Example.edge "a" "b"; Example.edge "a" "c"; Example.edge "a" "d"] in
  Example.edge "a" "b" ∈ validEdges Example.partlyPlaced edges ∧
  placed Example.partlyPlaced "a" ∧ placed Example.partlyPlaced "b" ∧
  unplaced Example.partlyPlaced "c" = true ∧
  unplaced Example.partlyPlaced "d" = true ∧
  (Example.edge "a" "c" ∉ validEdges Example.partlyPlaced edges) ∧
  (Example.edge "a" "d" ∉ validEdges Example.partlyPlaced edges).
Proof.
  intros edges.
  assert (Hab : Example.edge "a" "b" ∈ validEdges Example.partlyPlaced edges).
  { apply elem_of_list_filter. split; [apply elem_of_cons; left; reflexivity |].
    apply edgeIsValid_true. exists (Pos.mk 100 100), (Pos.mk 200 50).
    split; [reflexivity |]. split; [reflexivity |]. simpl. repeat split; lra. }
  assert (Hc : unplaced Example.partlyPlaced "c" = true).
  { unfold unplaced. replace (Example.partlyPlaced !! "c") with (Some (Pos.mk 0 0))
      by reflexivity. apply at_origin_true. reflexivity. }
  assert (Hd : unplaced Example.partlyPlaced "d" = true) by reflexivity.
  destruct (proj1 (validEdges_entries_placed Example.partlyPlaced edges
                     (Example.edge "a" "b")) Hab) as [Ha Hb].
  pose proof (proj2 (validEdges_entries_placed Example.partlyPlaced edges
                       (Example.edge "a" "c")) (or_intror Hc)) as [Hac _].
  pose proof (proj2 (validEdges_entries_placed Example.partlyPlaced edges
                       (Example.edge "a" "d")) (or_intror Hd)) as [Had _].
  repeat split; assumption.
Defined.


(** With 51 nodes the stored layout is the donut one, with one node the
    circular one; the two sample layout functions differ. *)
Lemma circular_becomes_donut_above_50_witness :
  let large := GraphData.mk (replicate 51 (Example.node "n")) [] in
  let small := GraphData.mk [Example.node "n"] [] in
  let st := initialState 800 600 in
  let run data :=
    nodePositions
      (layoutEffect Example.emptyLayout Example.centerLayout Example.emptyLayout
         Example.emptyLayout (λ _, 1) data circular true st) in
  (50 < length (GraphData.nodes large))%nat ∧
  (length (GraphData.nodes small) <= 50)%nat ∧
  actualLayout 51 circular = donut ∧
  actualLayout 1 circular = circular ∧
  run large = {[ "center" := Pos.mk (5000 / 2) (5000 / 2) ]} ∧
  run small = ∅.
Proof.
  intros large small st run.
  assert (Hlarge : (50 < length (GraphData.nodes large))%nat) by (simpl; lia).
  assert (Hsmall : (length (GraphData.nodes small) <= 50)%nat) by (simpl; lia).
  destruct (circular_becomes_donut_above_50 Example.emptyLayout Example.centerLayout
              Example.emptyLayout Example.emptyLayout (λ _, 1) large true st)
    as (Hdonut & _ & Hstored).
  destruct (circular_becomes_donut_above_50 Example.emptyLayout Example.centerLayout
              Example.emptyLayout Example.emptyLayout (λ _, 1) small true st)
    as (_ & Hcircular & Hstored').
  destruct (Hdonut Hlarge) as [Hkind Hcomputed].
  destruct (Hcircular Hsmall) as [Hkind' Hcomputed'].
  split; [exact Hlarge |]. split; [exact Hsmall |].
  split; [exact Hkind |]. split; [exact Hkind' |]. split.
  - unfold run. rewrite Hstored by discriminate. rewrite Hcomputed. reflexivity.
  - unfold run. rewrite Hstored' by discriminate. rewrite Hcomputed'. reflexivity.
Defined.


(** Expanding [A] when [P] and [Q] are placed moves nothing and highlights
    the family. *)
Lemma handleExpandNode_additive_witness :
  let st := Example.withPositions Example.allPlaced in
  let after := handleExpandNode Example.family (Example.node "A") st in
  newNodeIds (discover Example.family (Example.node "A")) = ["P"; "Q"] ∧
  nodePositions after !! "P" = Some (Pos.mk 300 200) ∧
  nodePositions after = nodePositions st ∧
  handleExpandNode Example.family (Example.node "A") after = after ∧
  "Q" ∈ HighlightedPath.nodes (highlightedPath after) ∧
  "A-Q" ∈ HighlightedPath.edges (highlightedPath after).
Proof.
  intros st after.
  assert (Hfound : newNodeIds (discover Example.family (Example.node "A")) = ["P"; "Q"])
    by reflexivity.
  assert (HP : nodePositions st !! "P" = Some (Pos.mk 300 200)) by reflexivity.
  assert (HQ : nodePositions st !! "Q" = Some (Pos.mk 300 600)) by reflexivity.
  assert (HPv : Pos.mk 300 200 ≠ Pos.origin).
  { intros H. injection H as H _. lra. }
  assert (HQv : Pos.mk 300 600 ≠ Pos.origin).
  { intros H. injection H as H _. lra. }
  assert (Hall : ∀ c, c ∈ newNodeIds (discover Example.family (Example.node "A")) →
                      placed (nodePositions st) c).
  { intros c. rewrite Hfound, !elem_of_cons, elem_of_nil.
    intros [-> | [-> | []]]; [exists (Pos.mk 300 200) | exists (Pos.mk 300 600)]; auto. }
  destruct (handleExpandNode_additive Example.family (Example.node "A") st)
    as (Hkeep & Hnodes & Hedges & Hidem).
  destruct (Hidem Hall) as [Hsame Hagain].
  split; [exact Hfound |]. split; [exact (Hkeep "P" _ HP HPv) |].
  split; [exact Hsame |]. split; [exact Hagain |]. split.
  - apply Hnodes. right. rewrite Hfound. apply elem_of_cons. right.
    apply elem_of_cons. left. reflexivity.
  - apply Hedges. exists "Q". split; [| reflexivity].
    rewrite Hfound. apply elem_of_cons. right. apply elem_of_cons. left. reflexivity.
Defined.

(** A refresh to the nodes [a] and [b] drops the entry of [c], keeps the
    one of [a] and clears highlight and selection. *)
Lemma resetEffect_prunes_positions_witness :
  let data := GraphData.mk [Example.node "a"; Example.node "b"] [] in
  let st :=
    setHighlightedPath (HighlightedPath.mk ["c"; "a"] ["c-a"])
      (setSelectedNode (Some (Example.node "c")) (Example.withPositions Example.partlyPlaced)) in
  let after := resetEffect data st in
  highlightedPath after = HighlightedPath.empty ∧
  selectedNode after = None ∧
  nodePositions after !! "c" = None ∧
  nodePositions after !! "a" = Some (Pos.mk 100 100) ∧
  "a" ∈ Node.id <$> GraphData.nodes data.
Proof.
  intros data st after.
  destruct (resetEffect_prunes_positions Example.emptyLayout Example.emptyLayout
              Example.emptyLayout Example.emptyLayout (λ _, 1) circular true data st)
    as (Hpath & Hsel & Hlookup & Hdom & _).
  assert (Ha : nodePositions after !! "a" = Some (Pos.mk 100 100)).
  { subst after. rewrite Hlookup. reflexivity. }
  split; [exact Hpath |]. split; [exact Hsel |]. split; [| split].
  - subst after. rewrite Hlookup. reflexivity.
  - exact Ha.
  - apply Hdom. subst after. rewrite Ha. eexists. reflexivity.
Defined.

(** A node with neither name nor title, and one with a title only. *)
Lemma displayName_absent_name_witness :
  Node.name (Example.node "n2") = None ∧
  getNodeDisplayName (Example.node "n2") = "Node n2" ∧
  getNodeDisplayName (Node.mk "n1" None (Some "Main") None None None) = "Main".
Proof.
  split; [reflexivity |]. split.
  - exact (displayName_absent_name (Example.node "n2") eq_refl).
  - exact (displayName_absent_name (Node.mk "n1" None (Some "Main") None None None) eq_refl).
Defined.

(** * Worked instances of the further properties *)

Ltac in_list :=
  repeat first [ apply elem_of_cons; left; reflexivity | apply elem_of_cons; right ].

Example nodeStats_sample :
  total (nodeStats Sample.typed) = 3%nat ∧
  types (nodeStats Sample.typed) !! "unknown" = Some 2%nat ∧
  types (nodeStats Sample.typed) !! "hook" = Some 1%nat ∧
  types (nodeStats Sample.typed) !! "class" = None.
Proof. repeat split; reflexivity. Qed.

Example displayPath_sample :
  GraphNodeComponent.displayPath Sample.deepFile = "...ents/graph/GraphEdges.tsx" ∧
  GraphNodeComponent.displayPath (Example.node "n") = "".
Proof. split; reflexivity. Qed.

Example toggleSection_sample :
  toggleSection "props" ["state"] = ["state"; "props"] ∧
  toggleSection "state" ["state"; "props"] = ["props"].
Proof. split; reflexivity. Qed.

(** In the diamond, [c] has two parents and the selection stays; in the
    family, [P] has the single parent [A], which gets selected. *)
Lemma handleGoToParent_selects_single_parent_witness :
  selectedNode (handleGoToParent Sample.diamond (Example.node "c") (initialState 800 600)) =
    selectedNode (initialState 800 600) ∧
  highlightedPath (handleGoToParent Example.family (Example.node "P") (initialState 800 600)) =
    HighlightedPath.mk ["P"; "A"] ["A-P"] ∧
  selectedNode (handleGoToParent Example.family (Example.node "P") (initialState 800 600)) =
    Some (Example.node "A").
Proof.
  split; [| split].
  - destruct (handleGoToParent_selects_single_parent Sample.diamond (Example.node "c")
                (initialState 800 600)) as (_ & _ & _ & Htwo).
    apply (Htwo (Example.edge "a" "c") (Example.edge "b" "c"));
      [in_list | in_list | reflexivity | reflexivity | discriminate].
  - destruct (handleGoToParent_selects_single_parent Example.family (Example.node "P")
                (initialState 800 600)) as (Hpath & _ & _).
    rewrite Hpath. reflexivity.
  - destruct (handleGoToParent_selects_single_parent Example.family (Example.node "P")
                (initialState 800 600)) as (_ & Hone & _).
    rewrite (Hone "A").
    + reflexivity.
    + exists (Example.edge "A" "P"). split; [in_list | reflexivity].
    + intros edge He Ht. simpl in He.
      apply elem_of_cons in He as [-> | He]; [reflexivity |].
      apply elem_of_cons in He as [-> | He]; [discriminate Ht |].
      apply elem_of_nil in He. contradiction.
Defined.

Lemma edge_click_highlights_only_that_edge_witness :
  let st := initialState 800 600 in
  dashFree "A" ∧
  isPathHighlighted (highlightedPath (handleEdgeClick (Example.edge "A" "P") st))
    (Example.edge "A" "P") = true ∧
  isPathHighlighted (highlightedPath (handleEdgeClick (Example.edge "A" "P") st))
    (Example.edge "A" "Q") = false.
Proof.
  cbn zeta. assert (HA : dashFree "A") by reflexivity.
  split; [exact HA |]. split.
  - apply (edge_click_highlights_only_that_edge (Example.edge "A" "P")
             (Example.edge "A" "P") (initialState 800 600) HA HA).
    split; reflexivity.
  - destruct (isPathHighlighted _ (Example.edge "A" "Q")) eqn:E; [| reflexivity].
    apply (edge_click_highlights_only_that_edge (Example.edge "A" "P")
             (Example.edge "A" "Q") (initialState 800 600) HA HA) in E.
    destruct E as [_ E]. discriminate E.
Defined.

Lemma node_click_highlights_touching_edges_witness :
  let st := initialState 800 600 in
  let after := handleNodeClick Sample.diamond (Example.node "a") st in
  isPathHighlighted (highlightedPath after) (Example.edge "a" "c") = true ∧
  strokeWidth (selectedNode after) (highlightedPath after) (Example.edge "a" "c") = 2.5.
Proof.
  cbn zeta.
  assert (Hfree : ∀ e, e ∈ GraphData.edges Sample.diamond → dashFree (Edge.source e)).
  { intros e He. simpl in He. rewrite !elem_of_cons, elem_of_nil in He.
    destruct He as [-> | [-> | []]]; reflexivity. }
  assert (Hin : Example.edge "a" "c" ∈ GraphData.edges Sample.diamond) by (simpl; in_list).
  destruct (node_click_highlights_touching_edges Sample.diamond (Example.node "a")
              (Example.edge "a" "c") (initialState 800 600) Hfree Hin)
    as (Hpath & _ & Hwidth).
  assert (Htrue : isPathHighlighted
            (highlightedPath (handleNodeClick Sample.diamond (Example.node "a")
                                (initialState 800 600)))
            (Example.edge "a" "c") = true).
  { apply Hpath. left. reflexivity. }
  split; [exact Htrue |]. rewrite Hwidth, Htrue. reflexivity.
Defined.

Lemma drag_onto_axis_hides_edges_witness :
  let st := Example.withPositions Example.partlyPlaced in
  let edges := [Example.edge "a" "b"] in
  let after := nodePositions (handleNodePositionChange "a" (Pos.mk 0 500) st) in
  Example.edge "a" "b" ∈ renderedEdges (nodePositions st) edges ∧
  (Example.edge "a" "b" ∉ renderedEdges after edges) ∧
  nodeIsRendered after (Example.node "a") = true.
Proof.
  cbn zeta. split; [| split].
  - unfold renderedEdges.
    assert (Hvalid : edgeIsValid (nodePositions (Example.withPositions Example.partlyPlaced))
                       (Example.edge "a" "b") = true).
    { apply edgeIsValid_true. exists (Pos.mk 100 100), (Pos.mk 200 50).
      split; [reflexivity |]. split; [reflexivity |]. simpl. repeat split; lra. }
    unfold validEdges. cbn [List.filter]. rewrite Hvalid. cbn [List.filter].
    rewrite (edgeIsValid_not_skipped _ _ Hvalid). simpl. in_list.
  - destruct (drag_onto_axis_hides_edges "a" (Pos.mk 0 500) [Example.edge "a" "b"]
                (Example.withPositions Example.partlyPlaced)) as (Hedges & _ & _).
    { left. reflexivity. }
    apply Hedges. left. reflexivity.
  - destruct (drag_onto_axis_hides_edges "a" (Pos.mk 0 500) [Example.edge "a" "b"]
                (Example.withPositions Example.partlyPlaced)) as (_ & Hnode & _).
    { left. reflexivity. }
    apply (Hnode (Example.node "a") eq_refl).
    intros H. injection H as H. lra.
Defined.

Lemma pan_follows_pointer_witness :
  transform
    (handleMouseMove Sample.last
       (handleMouseMove Sample.move
          (handleMouseDown true Sample.down (initialState 800 600)))) =
  Transform.mk (150 - (100 - 0)) (80 - (100 - 0)) 1.
Proof.
  destruct (pan_follows_pointer Sample.down Sample.last [Sample.move]
              (initialState 800 600)) as (Ht & _).
  exact Ht.
Defined.

Lemma moves_without_pan_do_nothing_witness :
  let st := initialState 800 600 in
  isPanning st = false ∧
  foldl (λ s e, handleMouseMove e s) st [Sample.move; Sample.last] = st.
Proof.
  cbn zeta. split; [reflexivity |].
  exact (proj1 (moves_without_pan_do_nothing Sample.down [Sample.move; Sample.last]
                  (initialState 800 600)) eq_refl).
Defined.

Lemma handleFocusNode_centres_node_witness :
  nodePositions (Example.withPositions Example.anchorOnly) !! "A" = Some (Pos.mk 300 400) ∧
  (∃ after,
     Proto.handleFocusNode (Example.node "A") (Example.withPositions Example.anchorOnly) =
       Some after ∧
     transform after = Transform.mk (800 / 2 - 300 * 1.5) (600 / 2 - 400 * 1.5) 1.5) ∧
  Proto.handleFocusNode (Example.node "zz") (Example.withPositions Example.anchorOnly) =
    Some (Example.withPositions Example.anchorOnly) ∧
  Proto.handleFocusNode (Example.node "toString") (Example.withPositions Example.anchorOnly) =
    None.
Proof.
  assert (HA : nodePositions (Example.withPositions Example.anchorOnly)
                 !! Node.id (Example.node "A") = Some (Pos.mk 300 400)) by reflexivity.
  destruct (handleFocusNode_centres_node (Example.node "A")
              (Example.withPositions Example.anchorOnly)) as (Hsome & _).
  destruct (Hsome _ HA) as (after & Hafter & Ht & _).
  destruct (handleFocusNode_centres_node (Example.node "zz")
              (Example.withPositions Example.anchorOnly)) as (_ & Hnone & _).
  destruct (handleFocusNode_centres_node (Example.node "toString")
              (Example.withPositions Example.anchorOnly)) as (_ & _ & Hinherited).
  split; [exact HA |]. split; [exists after; split; [exact Hafter | exact Ht] |].
  split.
  - apply Hnone; [reflexivity |]. simpl. unfold objectPrototypeNames.
    intros Hin. repeat (apply elem_of_cons in Hin as [Hin | Hin]; [discriminate Hin |]).
    apply elem_of_nil in Hin. exact Hin.
  - apply Hinherited; [reflexivity |]. simpl. unfold objectPrototypeNames. in_list.
Defined.


Lemma handleWheel_direction_witness :
  let st := initialState 800 600 in
  scaleInRange (Transform.scale (transform st)) ∧
  Transform.scale (transform st) <=
  Transform.scale (transform (handleWheel (Some Example.rect) Example.wheel st)).
Proof.
  cbn zeta.
  assert (H : scaleInRange (Transform.scale (transform (initialState 800 600)))).
  { unfold scaleInRange. simpl. lra. }
  split; [exact H |].
  destruct (handleWheel_direction Example.rect Example.wheel (initialState 800 600) H)
    as (_ & Hup & _).
  apply Hup. simpl. lra.
Defined.

Lemma displayPath_keeps_end_witness :
  (25 < String.length (js_or_else (Node.filepath Sample.deepFile) ""))%nat ∧
  (String.length (GraphNodeComponent.displayPath Sample.deepFile) <= 28)%nat ∧
  (∃ pre suf,
     js_or_else (Node.filepath Sample.deepFile) "" = pre +:+ suf ∧
     String.length suf = 25%nat ∧
     GraphNodeComponent.displayPath Sample.deepFile = "..." +:+ suf) ∧
  GraphNodeComponent.displayPath (Example.node "n") = "".
Proof.
  assert (Hlong : (25 < String.length (js_or_else (Node.filepath Sample.deepFile) ""))%nat).
  { simpl. lia. }
  destruct (displayPath_keeps_end Sample.deepFile) as (Hlen & _ & Hcut).
  destruct (displayPath_keeps_end (Example.node "n")) as (_ & Hshort & _).
  split; [exact Hlong |]. split; [exact Hlen |]. split; [exact (Hcut Hlong) |].
  apply Hshort. simpl. lia.
Defined.


Lemma node_menus_never_both_open_witness :
  let events :=
    [GraphNodeComponent.MenuClick;
     GraphNodeComponent.ContextMenu (MouseEvent.mk 1000 700) 1024 768;
     GraphNodeComponent.MouseEnter;
     GraphNodeComponent.MenuClick] in
  let after := GraphNodeComponent.run 10 events GraphNodeComponent.initial in
  GraphNodeComponent.showMenu GraphNodeComponent.initial &&
  GraphNodeComponent.showContextMenu GraphNodeComponent.initial = false ∧
  GraphNodeComponent.showMenu after && GraphNodeComponent.showContextMenu after = false.
Proof.
  cbn zeta. split; [reflexivity |].
  exact (proj1 (node_menus_never_both_open 10
    [GraphNodeComponent.MenuClick;
     GraphNodeComponent.ContextMenu (MouseEvent.mk 1000 700) 1024 768;
     GraphNodeComponent.MouseEnter;
     GraphNodeComponent.MenuClick]
    GraphNodeComponent.initial eq_refl)).
Defined.

Lemma sizeAdjustment_bounds_witness :
  (60 <= 120)%nat ∧ (90 <= 120)%nat ∧ 0 <= 1 ∧
  GraphNodeComponent.sizeAdjustment 120 <= GraphNodeComponent.sizeAdjustment 60 ∧
  GraphNodeComponent.sizeAdjustment 120 = 0.7 ∧
  180 * 1 * 0.7 <= GraphNodeComponent.nodeWidth 1 120 <= 180 * 1.
Proof.
  assert (H1 : (60 <= 120)%nat) by lia.
  assert (H2 : (90 <= 120)%nat) by lia.
  assert (H3 : 0 <= 1) by lra.
  destruct (sizeAdjustment_bounds 60 120 1) as (_ & Hmono & _).
  destruct (sizeAdjustment_bounds 120 120 1) as (_ & _ & Hflat & _ & Hwidth).
  split; [exact H1 |]. split; [exact H2 |]. split; [exact H3 |].
  split; [exact (Hmono H1) |]. split; [exact (Hflat H2) | exact (Hwidth H3)].
Defined.

Lemma placePanel_inside_container_witness :
  let container := Size.mk 1200 800 in
  let panel := NodeDetailsPanel.placePanel (Pos.mk 300 400) container in
  390 <= 1200 ∧ 440 <= 800 ∧
  20 <= Pos.x panel ∧ 20 <= Pos.y panel ∧
  Pos.x panel = 300 + 20.
Proof.
  cbn zeta.
  destruct (placePanel_inside_container (Pos.mk 300 400) (Size.mk 1200 800))
    as (_ & _ & Hx & Hy & Hright & _).
  cbn zeta in Hx, Hy, Hright. simpl Size.width in *. simpl Size.height in *.
  simpl Pos.x in Hright at 1 2 4.
  assert (H1 : 390 <= 1200) by lra. assert (H2 : 440 <= 800) by lra.
  split; [exact H1 |]. split; [exact H2 |].
  split; [exact (Hx H1) |]. split; [exact (Hy H2) |].
  apply Hright; lra.
Defined.


Lemma handleExpandNode_writes_revealed_ids_witness :
  Proto.nodesToReveal Example.anchorOnly
    (newNodeIds (discover Example.inheritedChild (Example.node "A"))) = ["Q"] ∧
  ∃ after,
    Proto.handleExpandNode Example.inheritedChild (Example.node "A")
      (Example.withPositions Example.anchorOnly) = Some after ∧
    nodePositions after !! "Q" = Some (Pos.mk (300 + 200) 400) ∧
    nodePositions after !! "A" = Some (Pos.mk 300 400).
Proof.
  assert (Hanchor : nodePositions (Example.withPositions Example.anchorOnly)
                      !! Node.id (Example.node "A") = Some (Pos.mk 300 400)) by reflexivity.
  assert (Hvalid : Pos.mk 300 400 ≠ Pos.origin).
  { intros H. injection H as H _. lra. }
  assert (Hreveal :
            Proto.nodesToReveal (nodePositions (Example.withPositions Example.anchorOnly))
              (newNodeIds (discover Example.inheritedChild (Example.node "A"))) = ["Q"])
    by reflexivity.
  split; [exact Hreveal |].
  destruct (handleExpandNode_writes_revealed_ids Example.inheritedChild (Example.node "A")
              (Example.withPositions Example.anchorOnly) (Pos.mk 300 400)
              Hanchor Hvalid) as (after & Hafter & _ & Hother & Hone).
  exists after. split; [exact Hafter |]. split.
  - exact (Hone "Q" Hreveal).
  - rewrite (Hother "A"); [exact Hanchor |].
    rewrite Hreveal. intros Hin. apply list_elem_of_singleton in Hin. discriminate Hin.
Defined.
Lemma handleExpandNode_needs_placed_anchor_witness :
  nodePositions (initialState 800 600) !! "A" = None ∧
  Proto.nodesToReveal (nodePositions (initialState 800 600))
    (newNodeIds (discover Example.family (Example.node "A"))) = ["P"; "Q"] ∧
  ∃ after,
    Proto.handleExpandNode Example.family (Example.node "A") (initialState 800 600) =
      Some after ∧
    nodePositions after = nodePositions (initialState 800 600).
Proof.
  assert (Hnone : nodePositions (initialState 800 600) !! Node.id (Example.node "A") = None)
    by reflexivity.
  assert (Hplain : Node.id (Example.node "A") ∉ objectPrototypeNames).
  { simpl. unfold objectPrototypeNames. intros Hin.
    repeat (apply elem_of_cons in Hin as [Hin | Hin]; [discriminate Hin |]).
    apply elem_of_nil in Hin. exact Hin. }
  split; [exact Hnone |]. split; [reflexivity |].
  destruct (proj1 (handleExpandNode_needs_placed_anchor Example.family (Example.node "A")
                     (initialState 800 600)) (or_intror (conj Hnone Hplain)))
    as (after & Hafter & Hpos & _).
  exists after. split; [exact Hafter | exact Hpos].
Defined.

Lemma discover_finds_children_witness :
  Node.metadata (Example.node "A") = None ∧
  "P" ∈ newNodeIds (discover Example.family (Example.node "A")) ∧
  ("A" ∉ newNodeIds (discover Example.family (Example.node "A"))).
Proof.
  destruct (discover_finds_children Example.family (Example.node "A"))
    as (Hchild & _ & Honly & _).
  split; [reflexivity |]. split.
  - apply Hchild. exists (Example.edge "A" "P").
    split; [simpl; in_list |]. split; reflexivity.
  - intros HA. apply (Honly eq_refl) in HA as (edge & He & _ & Ht).
    simpl in He. rewrite !elem_of_cons, elem_of_nil in He.
    destruct He as [-> | [-> | []]]; discriminate Ht.
Defined.


Lemma highlight_names_only_nodes_witness :
  let st := initialState 800 600 in
  edgesJoinNodes Example.family ∧
  aboutData Example.family (DoNodeClick (Example.node "A")) ∧
  "P" ∈ HighlightedPath.nodes
          (highlightedPath (interact Example.family st (DoNodeClick (Example.node "A")))) ∧
  "P" ∈ nodeIds Example.family.
Proof.
  cbn zeta.
  assert (Hjoin : edgesJoinNodes Example.family).
  { intros edge He. simpl in He. rewrite !elem_of_cons, elem_of_nil in He.
    destruct He as [-> | [-> | []]]; split; unfold nodeIds; simpl; in_list. }
  assert (Habout : aboutData Example.family (DoNodeClick (Example.node "A"))).
  { unfold aboutData, nodeIds. simpl. in_list. }
  assert (Hin : "P" ∈ HighlightedPath.nodes
            (highlightedPath (interact Example.family (initialState 800 600)
                                (DoNodeClick (Example.node "A"))))).
  { replace (HighlightedPath.nodes _) with ["A"; "P"; "Q"] by reflexivity. in_list. }
  split; [exact Hjoin |]. split; [exact Habout |]. split; [exact Hin |].
  apply (highlight_names_only_nodes Example.family (DoNodeClick (Example.node "A"))
           (initialState 800 600) "P" Hjoin Habout); [| exact Hin].
  intros x Hx. simpl in Hx. apply elem_of_nil in Hx. contradiction.
Defined.

Lemma positions_name_only_nodes_witness :
  let st := Example.withPositions Example.anchorOnly in
  let interactions :=
    [DoExpandNode (Example.node "A"); DoPositionChange "P" (Pos.mk 10 20); DoDataReset] in
  edgesJoinNodes Example.family ∧
  Forall (aboutData Example.family) interactions ∧
  is_Some (nodePositions (foldl (interact Example.family) st interactions) !! "Q") ∧
  "Q" ∈ nodeIds Example.family.
Proof.
  cbn zeta.
  assert (Hjoin : edgesJoinNodes Example.family).
  { intros edge He. simpl in He. rewrite !elem_of_cons, elem_of_nil in He.
    destruct He as [-> | [-> | []]]; split; unfold nodeIds; simpl; in_list. }
  assert (Hall : Forall (aboutData Example.family)
            [DoExpandNode (Example.node "A"); DoPositionChange "P" (Pos.mk 10 20);
             DoDataReset]).
  { repeat constructor; unfold aboutData, nodeIds; simpl; in_list. }
  assert (HQ : is_Some (nodePositions
            (foldl (interact Example.family) (Example.withPositions Example.anchorOnly)
               [DoExpandNode (Example.node "A"); DoPositionChange "P" (Pos.mk 10 20);
                DoDataReset]) !! "Q")).
  { cbn [foldl interact]. rewrite resetEffect_lookup.
    rewrite bool_decide_eq_true_2 by (simpl; in_list).
    change (nodePositions
              (handleNodePositionChange "P" (Pos.mk 10 20)
                 (handleExpandNode Example.family (Example.node "A")
                    (Example.withPositions Example.anchorOnly))))
      with (<["P" := Pos.mk 10 20]>
              (nodePositions (handleExpandNode Example.family (Example.node "A")
                                (Example.withPositions Example.anchorOnly)))).
    rewrite lookup_insert_ne by discriminate.
    rewrite (handleExpandNode_revealed Example.family (Example.node "A")
               (Example.withPositions Example.anchorOnly) (Pos.mk 300 400) 1 "Q");
      [eexists; reflexivity | reflexivity | | reflexivity].
    intros H. injection H as H _. lra. }
  split; [exact Hjoin |]. split; [exact Hall |]. split; [exact HQ |].
  apply (positions_name_only_nodes Example.family _
           (Example.withPositions Example.anchorOnly) Hjoin Hall); [| exact HQ].
  intros x Hx. unfold nodeIds. simpl.
  destruct (decide (x = "A")) as [-> | Hne]; [in_list |].
  simpl in Hx. unfold Example.anchorOnly in Hx.
  rewrite lookup_singleton_ne in Hx by congruence. destruct Hx as [? Hx]. discriminate.
Defined.
